(** * SafePredictDemo: the notebook's label remap, change-point block and
      error-rate loop, and the abstention controller it drives.

    The notebook [SafePredictDemo.ipynb] is embedded cell by cell: Python
    integers are [Z], numpy integer arrays are [list Z] read and written by
    index, a raised Python exception is a [Raise] result.  The quotient
    [errors/counter_sp] of two Python integers is kept as the exact rational
    it denotes (the float the notebook stores is that rational rounded). *)

From Stdlib Require Import ZArith QArith Lia.
From stdpp Require Import base option list.

Local Open Scope Z_scope.

(** ** Python values and exceptions *)

Inductive exn : Type := IndexError | ValueError.

(** A call either returns or raises; [E] is the type of what is raised. *)
Inductive result (E A : Type) : Type :=
  | Ok (a : A)
  | Raise (e : E).
Arguments Ok {E A} a.
Arguments Raise {E A} e.

#[global] Instance result_ret {E} : MRet (result E) := λ A, Ok.
#[global] Instance result_bind {E} : MBind (result E) := λ A B f r,
  match r with Ok a => f a | Raise e => Raise e end.
#[global] Instance result_fmap {E} : FMap (result E) := λ A B f r,
  match r with Ok a => Ok (f a) | Raise e => Raise e end.

Abbreviation py := (result exn).

Definition len {A} (l : list A) : Z := Z.of_nat (length l).

(** [range(lo, hi)]: empty when [hi <= lo]. *)
Definition range (lo hi : Z) : list Z :=
  (λ k : nat, lo + Z.of_nat k) <$> seq 0 (Z.to_nat (hi - lo)).

(** [l[k]] on a list or a numpy array: a negative index counts from the
    end, and an index outside [-len, len) raises [IndexError]. *)
Definition py_index {A} (l : list A) (k : Z) : py A :=
  let j := if bool_decide (k < 0) then k + len l else k in
  if bool_decide (0 ≤ j) then
    match l !! Z.to_nat j with
    | Some x => Ok x
    | None => Raise IndexError
    end
  else Raise IndexError.

(** [l[k] = v], same index rule. *)
Definition py_setitem {A} (l : list A) (k : Z) (v : A) : py (list A) :=
  let j := if bool_decide (k < 0) then k + len l else k in
  if bool_decide (0 ≤ j < len l) then Ok (<[Z.to_nat j := v]> l)
  else Raise IndexError.

(** [l[a:b]]: negative bounds count from the end, all bounds are clamped. *)
Definition slice_bound {A} (l : list A) (k : Z) : nat :=
  Z.to_nat (if bool_decide (k < 0) then Z.max (k + len l) 0 else Z.min k (len l)).

Definition py_slice {A} (l : list A) (a b : Z) : list A :=
  take (slice_bound l b - slice_bound l a)%nat (drop (slice_bound l a) l).

(** [min(l)] and [max(l)]: [ValueError] on an empty sequence. *)
Definition py_min (l : list Z) : py Z :=
  match l with
  | [] => Raise ValueError
  | x :: l' => Ok (foldl Z.min x l')
  end.

Definition py_max (l : list Z) : py Z :=
  match l with
  | [] => Raise ValueError
  | x :: l' => Ok (foldl Z.max x l')
  end.

(** [for x in xs: s = body(x, s)], stopping at the first exception. *)
Fixpoint for_each {E A S} (body : A → S → result E S) (xs : list A) (s : S)
    : result E S :=
  match xs with
  | [] => Ok s
  | x :: xs' => s' ← body x s; for_each body xs' s'
  end.

(** ** Cell 3: the label remap *)

(** [y.astype(float); (y + 1)/2; y.astype(int)] on an integer-valued label:
    the float quotient is exact (a multiple of one half) and [astype(int)]
    truncates toward zero.  This is what the cell computes for labels below
    2^53 in absolute value, which a float holds exactly; beyond that the
    cell rounds the label first. *)
Definition remap (y : Z) : Z := Z.quot (y + 1) 2.

(** ** Cell 9: the error-rate loop *)

(** The value [predictions[i]] is compared with in line 247. *)
Definition abstain : Z := -1.

Record tally : Type := Tally {
  errors : Z;
  counter_sp : Z;
  error_rates : list Q
}.

Definition tally0 : tally := Tally 0 0 [].

(** Lines 247-250: count a non-abstained wrong prediction, then count the
    round.  [y[i+tl]] is read only when the prediction is not [-1]. *)
Definition count_round (predictions y : list Z) (tl i : Z) (s : tally) : py tally :=
  p ← py_index predictions i;
  e ← (if bool_decide (p ≠ abstain) then
         l ← py_index y (i + tl);
         Ok (if bool_decide (p ≠ l) then errors s + 1 else errors s)
       else Ok (errors s));
  Ok (Tally e (counter_sp s + 1) (error_rates s)).

(** Lines 251-254. *)
Definition append_rate (s : tally) : tally :=
  if bool_decide (counter_sp s = 0)
  then Tally (errors s) (counter_sp s) (error_rates s ++ [0%Q])
  else Tally (errors s) (counter_sp s)
             (error_rates s ++ [(inject_Z (errors s) / inject_Z (counter_sp s))%Q]).

Definition rate_body (predictions y : list Z) (tl i : Z) (s : tally) : py tally :=
  append_rate <$> count_round predictions y tl i s.

(** The loop run for its first [n] iterations. *)
Definition error_rate_upto (predictions y : list Z) (tl n : Z) : py tally :=
  for_each (rate_body predictions y tl) (range 0 n) tally0.

(** Lines 241-254, [total_preds = len(predictions)]. *)
Definition error_rate_loop (predictions y : list Z) (tl : Z) : py tally :=
  error_rate_upto predictions y tl (len predictions).

(** ** Cell 5: the change-point block *)

(** [np.random.permutation] draws from numpy's global generator: [G] is the
    generator's state, a call returns the next state and a rearrangement of
    its argument. *)
Class Shuffler (G : Type) : Type := {
  permutation : G → list Z → G * list Z;
  permutation_perm : ∀ g l, (permutation g l).2 ≡ₚ l
}.

(** [np.arange(a, b)]. *)
Definition arange (a b : Z) : list Z := range a b.

(** Line 135: [holdout_y[t] = permuted_labels[holdout_y[t]]]. *)
Definition relabel (permuted_labels : list Z) (t : Z) (holdout_y : list Z) : py (list Z) :=
  l ← py_index holdout_y t;
  v ← py_index permuted_labels l;
  py_setitem holdout_y t v.

(** Lines 133-135, one pass of the outer loop. *)
Definition shuffle_segment `{Shuffler G} (T numCP i : Z) (st : G * list Z)
    : py (G * list Z) :=
  let a := i * (T / (numCP + 1)) in
  let b := (i + 1) * (T / (numCP + 1)) in
  mn ← py_min (py_slice st.2 a b);
  mx ← py_max (py_slice st.2 a b);
  let gp := permutation st.1 (arange mn (mx + 1)) in
  holdout_y ← for_each (relabel gp.2) (range a b) st.2;
  Ok (gp.1, holdout_y).

(** Lines 129-135, with [numCP] (set to 0 in line 130) as a parameter. *)
Definition change_points `{Shuffler G} (numCP : Z) (g : G) (holdout_y : list Z)
    : py (G * list Z) :=
  let T := len holdout_y in
  if bool_decide (numCP ≠ 0)
  then for_each (shuffle_segment T numCP) (range 1 (numCP + 1)) (g, holdout_y)
  else Ok (g, holdout_y).

(** The labels of pass [i]: the slice whose [min] and [max] line 133 takes
    and whose positions line 134 visits. *)
Definition segment (holdout_y : list Z) (numCP i : Z) : list Z :=
  py_slice holdout_y (i * (len holdout_y / (numCP + 1)))
                     ((i + 1) * (len holdout_y / (numCP + 1))).

(** A generator whose every draw is the reversal, to run the block on
    concrete arrays. *)
#[export] Program Instance reversing : Shuffler unit := {
  permutation g l := (g, reverse l)
}.
Next Obligation. intros g l. simpl. by rewrite reverse_Permutation. Qed.

(** ** The abstention controller

    The notebook imports the controller ([safePredict]) and only calls it
    (cell 6 constructs it, cell 8 calls [fit] and [predict]); its code is
    not part of the notebook. *)

Module Controller.

Inductive error : Type := ConfigurationError | NotSeededError | EstimatorError.

(** What [decide] returns: a label or the abstention marker. *)
Inductive decision : Type :=
  | Predict (label : Z)
  | Abstain.

(** Modelled from the spec: the base estimator, of which the notebook has
    only the calls.  "Base Estimator contract (consumed): fit(features_batch,
    labels_batch), predict(features) -> label"; a prediction failure is
    [None]. *)
Class BaseEstimator (X M : Type) : Type := {
  est_fit : list (X * Z) → M;
  est_predict : M → X → option Z
}.

(** Modelled from the spec: the pseudo-random source, absent from the
    notebook.  "an explicit pseudo-random source injected into the
    controller at construction": a state [G] and a draw of a uniform value
    that returns the next state. *)
Class RandomSource (G : Type) : Type := {
  uniform : G → Q * G
}.

(** Modelled from the spec: the controller's numeric state, absent from
    the notebook.  "cumulative count of predictions made, cumulative count
    of errors among predictions made, and a scalar ... parameter that
    determines the abstention probability", with the round counter. *)
Record stats : Type := Stats {
  rounds : Z;
  predictions_made : Z;
  errors_made : Z;
  threshold : Q
}.

(** Modelled from the spec: the adaptive rule, which the spec leaves to the
    implementer ("the exact mathematical form of the adaptive
    threshold/confidence update ... is not fully observable").  The
    starting threshold is derived from ε, the acceptance probability is "a
    function of the current error budget and target ε", and the threshold
    is recomputed "from the updated counts" knowing whether the round was
    predicted and whether it was wrong. *)
Class AdaptiveRule : Type := {
  initial_threshold : Q → Q;
  acceptance : Q → stats → Q;
  adapt : Q → stats → bool → bool → Q
}.

(** Modelled from the spec: the state machine "Unseeded → Seeded" of the
    absent controller; the seeded state holds the fitted estimator and the
    counts. *)
Inductive phase (M : Type) : Type :=
  | Unseeded
  | Seeded (m : M) (s : stats).
Arguments Unseeded {M}.
Arguments Seeded {M} m s.

Record controller (M G : Type) : Type := Controller {
  target_error : Q;
  rng : G;
  state : phase M
}.
Arguments Controller {M G} _ _ _.
Arguments target_error {M G} _.
Arguments rng {M G} _.
Arguments state {M G} _.

(** Modelled from the spec: construction of the absent controller, "fails
    with ConfigurationError if ε is not in (0,1) at construction". *)
Definition construct {M G} (eps : Q) (g : G) : result error (controller M G) :=
  if Qlt_le_dec 0 eps then
    if Qlt_le_dec eps 1 then Ok (Controller eps g Unseeded)
    else Raise ConfigurationError
  else Raise ConfigurationError.

(** Modelled from the spec: [seed] of the absent controller, "fits the base
    estimator on the batch; initializes round counter and error-budget
    state to their starting values (e.g., zero errors, zero predictions,
    initial confidence threshold derived from ε)".  The round counter
    starts at 0. *)
Definition seed `{BaseEstimator X M} `{AdaptiveRule} {G}
    (c : controller M G) (batch : list (X * Z)) : controller M G :=
  Controller (target_error c) (rng c)
    (Seeded (est_fit batch) (Stats 0 0 0 (initial_threshold (target_error c)))).

(** Modelled from the spec: the count update of the absent [decide], "if
    predicted, increment predictions-made and, if ŷ ≠ y_true, increment
    errors-made; regardless of abstention, increment the round index.
    Recompute the confidence/threshold parameter from the updated
    counts". *)
Definition update `{AdaptiveRule} (eps : Q) (s : stats) (predicted wrong : bool) : stats :=
  let s' := Stats (rounds s + 1)
                  (if predicted then predictions_made s + 1 else predictions_made s)
                  (if predicted && wrong then errors_made s + 1 else errors_made s)
                  (threshold s) in
  Stats (rounds s') (predictions_made s') (errors_made s')
        (adapt eps s' predicted wrong).

(** Modelled from the spec: [decide] of the absent controller.  "fails
    with NotSeededError if decide is invoked before seed"; "obtain raw
    prediction ŷ from the base estimator" (a failure propagates "as
    EstimatorError without corrupting controller state"); "Compute an
    acceptance probability p_t ... Draw a uniform random value; if below
    p_t, emit ŷ ...; otherwise emit the abstention marker". *)
Definition decide `{BaseEstimator X M} `{RandomSource G} `{AdaptiveRule}
    (c : controller M G) (x : X) (y_true : Z)
    : result error (decision * controller M G) :=
  match state c with
  | Unseeded => Raise NotSeededError
  | Seeded m s =>
    match est_predict m x with
    | None => Raise EstimatorError
    | Some yhat =>
      let p := acceptance (target_error c) s in
      let ug := uniform (rng c) in
      let predicted := if Qlt_le_dec ug.1 p then true else false in
      let wrong := bool_decide (yhat ≠ y_true) in
      Ok (if predicted then Predict yhat else Abstain,
          Controller (target_error c) ug.2
            (Seeded m (update (target_error c) s predicted wrong)))
    end
  end.

(** Modelled from the spec: a run of the absent controller over an input
    sequence, one [decide] per pair; a failed round leaves the controller
    as it was ("a retried decide call on the same round sees consistent
    pre-failure state"). *)
Fixpoint run `{BaseEstimator X M} `{RandomSource G} `{AdaptiveRule}
    (c : controller M G) (inputs : list (X * Z)) : list (result error decision) :=
  match inputs with
  | [] => []
  | (x, y_true) :: rest =>
    match decide c x y_true with
    | Ok (d, c') => Ok d :: run c' rest
    | Raise e => Raise e :: run c rest
    end
  end.


(** The spec's concrete scenario: "base estimator = a stub always
    returning label 1". *)
#[export] Instance stub : BaseEstimator unit unit := {
  est_fit _ := tt;
  est_predict _ _ := Some 1
}.

(** An estimator that fails on every query. *)
Definition broken : BaseEstimator unit unit := {|
  est_fit _ := tt;
  est_predict _ _ := None
|}.

(** A linear congruential generator, its draw scaled to [0, 1). *)
#[export] Instance lcg : RandomSource Z := {
  uniform g :=
    let g' := (1103515245 * g + 12345) `mod` 2147483648 in
    (Qmake g' 2147483648, g')
}.

(** One rule of the kind the spec sketches: the threshold is the
    acceptance probability, halved after a wrong predicted round and
    moved halfway to 1 after any other round. *)
#[export] Instance halving : AdaptiveRule := {
  initial_threshold _ := 1%Q;
  acceptance _ s := threshold s;
  adapt _ s predicted wrong :=
    if predicted && wrong then (threshold s / 2)%Q
    else ((threshold s + 1) / 2)%Q
}.

End Controller.

(** ** What the error-rate loop is compared with *)

(** Round [j] of cell 9: [predictions[j]] and the label [y[j+tl]] it is
    compared with. *)
Definition rounds_of (predictions y : list Z) (tl : Z) : list (Z * Z) :=
  zip predictions (drop (Z.to_nat tl) y).

(** A round counted by line 249: predicted, and wrong. *)
Definition mispredicted (r : Z * Z) : Prop := r.1 ≠ abstain ∧ r.1 ≠ r.2.

(** A round that was not abstained. *)
Definition predicted (r : Z * Z) : Prop := r.1 ≠ abstain.

#[global] Instance mispredicted_dec r : Decision (mispredicted r).
Proof. unfold mispredicted. apply _. Defined.

#[global] Instance predicted_dec r : Decision (predicted r).
Proof. unfold predicted. apply _. Defined.

Definition errors_among (rs : list (Z * Z)) : Z := len (filter mispredicted rs).

Definition predicted_among (rs : list (Z * Z)) : Z := len (filter predicted rs).

(** The rate the loop appends at round [i]: wrong predictions so far over
    all rounds so far, abstained ones included. *)
Definition rate_over_rounds (rs : list (Z * Z)) (i : nat) : Q :=
  (inject_Z (errors_among (take (S i) rs)) / inject_Z (Z.of_nat (S i)))%Q.

(** The error rate as the specification words it: "the fraction of errors
    among predicted (non-abstained) rounds", wrong predictions so far over
    non-abstained rounds so far. *)
Definition spec_error_rate (rs : list (Z * Z)) (i : nat) : Q :=
  (inject_Z (errors_among (take (S i) rs)) / inject_Z (predicted_among (take (S i) rs)))%Q.

(** ** Cell 7: the retraining period *)

Definition tau : Z := 100.

Definition tl : Z := tau.

(** ** Cell 8: the online loop *)

(** The object [sp] the loop drives.  The notebook only calls it: the three
    calls are parameters, each taking the object to the object after the
    call.  [sp_predict x l] is [sp.predict(x, l)[0]]. *)
Class SafePredict (X Obj : Type) : Type := {
  sp_fit : list X → list Z → Obj → Obj;
  sp_estimator_fit : list X → list Z → Obj → Obj;
  sp_predict : X → Z → Obj → Z * Obj
}.

(** Lines 199-201, one pass: a refit on the rows before [t] when [t] is a
    multiple of [tau], then the prediction for row [t], appended. *)
Definition online_step `{SafePredict X Obj} (Xs : list X) (y : list Z) (t : Z)
    (st : Obj * list Z) : py (Obj * list Z) :=
  let sp := if bool_decide (t `mod` tau = 0)
            then sp_estimator_fit (py_slice Xs 0 t) (py_slice y 0 t) st.1
            else st.1 in
  x ← py_index Xs t;
  l ← py_index y t;
  let r := sp_predict x l sp in
  Ok (r.2, st.2 ++ [r.1]).

(** Lines 196-201, [horizon = X.shape[0]] (line 178).  Returns the object
    and [predictions]. *)
Definition online_loop `{SafePredict X Obj} (sp : Obj) (Xs : list X) (y : list Z)
    : py (Obj * list Z) :=
  let horizon := len Xs in
  let sp := sp_fit (py_slice Xs 0 tl) (py_slice y 0 tl) sp in
  for_each (online_step Xs y) (range tl horizon) (sp, []).

(** A stand-in for [sp] that records the calls made to it (and abstains on
    every query), to read the loop's calls off a run. *)
Inductive call (X : Type) : Type :=
  | Fit (Xb : list X) (yb : list Z)
  | EstimatorFit (Xb : list X) (yb : list Z)
  | Predict (x : X) (l : Z).
Arguments Fit {X} Xb yb.
Arguments EstimatorFit {X} Xb yb.
Arguments Predict {X} x l.

#[export] Instance recorder {X} : SafePredict X (list (call X)) := {
  sp_fit Xb yb log := log ++ [Fit Xb yb];
  sp_estimator_fit Xb yb log := log ++ [EstimatorFit Xb yb];
  sp_predict x l log := (abstain, log ++ [Predict x l])
}.

(** For each recorded query, the rows and labels of the fit that precedes it
    most closely ([cur] before any fit). *)
Fixpoint fits_before {X} (cur : list X * list Z) (log : list (call X))
    : list (list X * list Z) :=
  match log with
  | [] => []
  | Fit Xb yb :: rest => fits_before (Xb, yb) rest
  | EstimatorFit Xb yb :: rest => fits_before (Xb, yb) rest
  | Predict _ _ :: rest => cur :: fits_before cur rest
  end.

(** The rows and labels of the last fit recorded ([cur] if none). *)
Fixpoint last_fit {X} (cur : list X * list Z) (log : list (call X)) : list X * list Z :=
  match log with
  | [] => cur
  | Fit Xb yb :: rest => last_fit (Xb, yb) rest
  | EstimatorFit Xb yb :: rest => last_fit (Xb, yb) rest
  | Predict _ _ :: rest => last_fit cur rest
  end.

(** The recorded queries, in order: the row and the label passed. *)
Fixpoint queries {X} (log : list (call X)) : list (X * Z) :=
  match log with
  | [] => []
  | Predict x l :: rest => (x, l) :: queries rest
  | _ :: rest => queries rest
  end.

(** The first [k] rows of [X] with their labels, [(X[:k], y[:k])]. *)
Definition first_rows {X} (Xs : list X) (y : list Z) (k : Z) : list X * list Z :=
  (take (Z.to_nat k) Xs, take (Z.to_nat k) y).

(** ** Cell 10: the error-rate loop of the plain classifier *)

Record base_tally : Type := BaseTally {
  base_err : Z;
  counter : Z;
  base_error_rates : list Q
}.

Definition base_tally0 : base_tally := BaseTally 0 0 [].

(** Lines 296-299.  [counter] was just incremented from a count of rounds,
    so the division is never by zero. *)
Definition base_rate_body (base_predictions y : list Z) (tl i : Z) (s : base_tally)
    : py base_tally :=
  p ← py_index base_predictions i;
  l ← py_index y (i + tl);
  let e := if bool_decide (p ≠ l) then base_err s + 1 else base_err s in
  let c := counter s + 1 in
  Ok (BaseTally e c (base_error_rates s ++ [(inject_Z e / inject_Z c)%Q])).

(** Lines 291-299, [total_base_preds = len(base_predictions)]. *)
Definition base_error_rate_loop (base_predictions y : list Z) (tl : Z) : py base_tally :=
  for_each (base_rate_body base_predictions y tl) (range 0 (len base_predictions))
           base_tally0.

(** A round the plain classifier got wrong. *)
Definition wrong (r : Z * Z) : Prop := r.1 ≠ r.2.

#[global] Instance wrong_dec r : Decision (wrong r).
Proof. unfold wrong. apply _. Defined.

Definition wrong_among (rs : list (Z * Z)) : Z := len (filter wrong rs).

(** ** Cell 10: the online loop of the plain classifier *)

(** The object [model]: [model_fit Xb yb] is [model.fit(Xb, yb)], taking
    the object to the object after the call, and [model_predict x] is
    [model.predict(x)[0]]. *)
Class Classifier (X Mdl : Type) : Type := {
  model_fit : list X → list Z → Mdl → Mdl;
  model_predict : X → Mdl → Z
}.

(** Lines 287-289, one pass. *)
Definition base_step `{Classifier X Mdl} (Xs : list X) (y : list Z) (t : Z)
    (st : Mdl * list Z) : py (Mdl * list Z) :=
  let model := if bool_decide (t `mod` tau = 0)
               then model_fit (py_slice Xs 0 t) (py_slice y 0 t) st.1
               else st.1 in
  x ← py_index Xs t;
  Ok (model, st.2 ++ [model_predict x model]).

(** Lines 282-289.  Returns the object and [base_predictions]. *)
Definition base_loop `{Classifier X Mdl} (model : Mdl) (Xs : list X) (y : list Z)
    : py (Mdl * list Z) :=
  let horizon := len Xs in
  let model := model_fit (py_slice Xs 0 tl) (py_slice y 0 tl) model in
  for_each (base_step Xs y) (range tl horizon) (model, []).

(** A classifier that answers 1 to every query, to run the loop. *)
#[export] Instance constant_one {X} : Classifier X unit := {
  model_fit _ _ m := m;
  model_predict _ _ := 1
}.

(** ** Cell 11: the threshold line *)

(** Lines 330-332: one copy of [epsilon] per prediction. *)
Definition threshold_loop (epsilon : Q) (total_preds : Z) : list Q :=
  foldl (λ threshold _, threshold ++ [epsilon]) [] (range 0 total_preds).

(** What the loop keeps, whatever the arrays hold: the errors counted never
    exceed the rounds counted, and every rate lies between 0 and 1. *)
Definition tally_bounded (s : tally) : Prop :=
  0 ≤ errors s ≤ counter_sp s
  ∧ Forall (λ r, (0 <= r <= 1)%Q) (error_rates s).

(** * Facts *)

(** ** Loops and indexing *)

Lemma range_nil lo hi : hi ≤ lo → range lo hi = [].
Proof. intros. unfold range. by replace (Z.to_nat (hi - lo)) with 0%nat by lia. Qed.

Lemma range_snoc lo (n : nat) :
  range lo (lo + Z.of_nat (S n)) = range lo (lo + Z.of_nat n) ++ [lo + Z.of_nat n].
Proof.
  unfold range.
  replace (Z.to_nat (lo + Z.of_nat (S n) - lo)) with (S n) by lia.
  replace (Z.to_nat (lo + Z.of_nat n - lo)) with n by lia.
  by rewrite seq_S, fmap_app.
Qed.

Lemma range_cons lo hi : lo < hi → range lo hi = lo :: range (lo + 1) hi.
Proof.
  intros. unfold range.
  replace (Z.to_nat (hi - lo)) with (S (Z.to_nat (hi - (lo + 1)))) by lia.
  simpl. f_equal; [lia|].
  rewrite <- fmap_S_seq, <- list_fmap_compose.
  apply list_fmap_ext. intros _ k _. simpl. lia.
Qed.

Lemma length_range lo hi : length (range lo hi) = Z.to_nat (hi - lo).
Proof. unfold range. by rewrite length_fmap, length_seq. Qed.

Lemma for_each_app {E A S} (body : A → S → result E S) xs ys s :
  for_each body (xs ++ ys) s = s' ← for_each body xs s; for_each body ys s'.
Proof.
  revert s. induction xs as [|x xs IH]; intros s; simpl; [done|].
  destruct (body x s) as [s1|e]; simpl; [apply IH | done].
Qed.

Lemma for_each_snoc {E A S} (body : A → S → result E S) xs x s s' :
  for_each body xs s = Ok s' → for_each body (xs ++ [x]) s = body x s'.
Proof.
  intros Hxs. rewrite for_each_app, Hxs. simpl. by destruct (body x s').
Qed.

Lemma py_index_nat {A} (l : list A) (n : nat) x :
  l !! n = Some x → py_index l (Z.of_nat n) = Ok x.
Proof.
  intros Hl. unfold py_index.
  rewrite (bool_decide_eq_false_2 (Z.of_nat n < 0)) by lia.
  rewrite (bool_decide_eq_true_2 (0 ≤ Z.of_nat n)) by lia.
  by rewrite Nat2Z.id, Hl.
Qed.

(** ** Cell 9 *)

Lemma rounds_of_lookup predictions y tl (n : nat) p l :
  0 ≤ tl → predictions !! n = Some p → y !! Z.to_nat (Z.of_nat n + tl) = Some l →
  rounds_of predictions y tl !! n = Some (p, l).
Proof.
  intros Htl Hp Hl. unfold rounds_of.
  rewrite lookup_zip_with, Hp. simpl.
  rewrite lookup_drop.
  replace (Z.to_nat tl + n)%nat with (Z.to_nat (Z.of_nat n + tl)) by lia.
  by rewrite Hl.
Qed.

Lemma errors_among_snoc rs r :
  errors_among (rs ++ [r])
  = if decide (mispredicted r) then errors_among rs + 1 else errors_among rs.
Proof.
  unfold errors_among, len. rewrite filter_app, length_app.
  rewrite filter_cons, filter_nil.
  destruct (decide (mispredicted r)); simpl; lia.
Qed.

(** One pass of the loop body, in terms of the round it reads. *)
Lemma rate_body_round predictions y tl (n : nat) p l s :
  0 ≤ tl → predictions !! n = Some p → y !! Z.to_nat (Z.of_nat n + tl) = Some l →
  count_round predictions y tl (Z.of_nat n) s
  = Ok (Tally (if decide (mispredicted (p, l)) then errors s + 1 else errors s)
              (counter_sp s + 1) (error_rates s)).
Proof.
  intros Htl Hp Hl. unfold count_round.
  rewrite (py_index_nat _ _ _ Hp). simpl.
  replace (Z.of_nat n + tl) with (Z.of_nat (Z.to_nat (Z.of_nat n + tl))) by lia.
  rewrite (py_index_nat _ _ _ Hl). unfold mispredicted. simpl.
  repeat case_bool_decide; simpl; destruct (decide _) as [[? ?]|Hn]; try done.
  all: exfalso; apply Hn; done.
Qed.

(** The loop invariant: after [n] rounds the tally holds the wrong
    predictions among them, the number [n] of rounds, and one rate per
    round. *)
Lemma error_rate_upto_spec predictions y tl (n : nat) :
  0 ≤ tl → tl + len predictions ≤ len y → (n ≤ length predictions)%nat →
  error_rate_upto predictions y tl (Z.of_nat n)
  = Ok (Tally (errors_among (take n (rounds_of predictions y tl))) (Z.of_nat n)
              (rate_over_rounds (rounds_of predictions y tl) <$> seq 0 n)).
Proof.
  intros Htl Hy. unfold len in Hy. induction n as [|n IH]; intros Hn; [done|].
  unfold error_rate_upto in *. rewrite seq_S, fmap_app.
  pose proof (range_snoc 0 n) as Hr. rewrite !Z.add_0_l in Hr. rewrite Hr.
  rewrite (for_each_snoc _ _ _ _ _ (IH ltac:(lia))).
  destruct (lookup_lt_is_Some_2 predictions n ltac:(lia)) as [p Hp].
  destruct (lookup_lt_is_Some_2 y (Z.to_nat (Z.of_nat n + tl)) ltac:(lia)) as [l Hl].
  unfold rate_body. rewrite (rate_body_round _ _ _ _ _ _ _ Htl Hp Hl).
  pose proof (rounds_of_lookup _ _ _ _ _ _ Htl Hp Hl) as Hrs.
  unfold append_rate, fmap at 1, result_fmap. cbn [counter_sp errors error_rates].
  rewrite bool_decide_eq_false_2 by lia.
  cbn [fmap list_fmap]. unfold rate_over_rounds at 3.
  rewrite Nat.add_0_l, (take_S_r _ _ _ Hrs), errors_among_snoc.
  by replace (Z.of_nat n + 1) with (Z.of_nat (S n)) by lia.
Qed.

(** Whatever the arrays hold, a round that line 250 completes has counted
    one more round and appended nothing yet, and lines 251-254 append
    exactly one rate. *)
Lemma count_round_counter predictions y tl i s s' :
  count_round predictions y tl i s = Ok s' →
  counter_sp s' = counter_sp s + 1 ∧ error_rates s' = error_rates s.
Proof.
  unfold count_round.
  destruct (py_index predictions i) as [p|]; [|done]. simpl.
  case_bool_decide; simpl; [|by intros [= <-]].
  destruct (py_index y (i + tl)) as [l|]; [|done]. simpl. by intros [= <-].
Qed.

Lemma append_rate_counter s :
  counter_sp (append_rate s) = counter_sp s
  ∧ len (error_rates (append_rate s)) = len (error_rates s) + 1.
Proof.
  unfold append_rate, len. case_bool_decide; simpl; rewrite length_app; simpl; lia.
Qed.

(** Every iteration the loop reaches has [counter_sp] equal to the number
    of iterations run, with one rate appended per iteration. *)
Lemma error_rate_upto_counts predictions y tl (n : nat) : ∀ s,
  error_rate_upto predictions y tl (Z.of_nat n) = Ok s →
  counter_sp s = Z.of_nat n ∧ len (error_rates s) = Z.of_nat n.
Proof.
  unfold error_rate_upto. induction n as [|n IH]; intros s.
  { by intros [= <-]. }
  pose proof (range_snoc 0 n) as Hr. rewrite !Z.add_0_l in Hr.
  rewrite Hr, for_each_app.
  destruct (for_each _ (range 0 (Z.of_nat n)) tally0) as [s0|]; [|done].
  destruct (IH s0 eq_refl) as [Hc Hl]. simpl. unfold rate_body.
  destruct (count_round predictions y tl (Z.of_nat n) s0) as [s1|] eqn:Hs1; [|done].
  simpl. intros [= <-].
  destruct (count_round_counter _ _ _ _ _ _ Hs1) as [Hc1 Hr1].
  destruct (append_rate_counter s1) as [Hc2 Hl2].
  rewrite Hc2, Hl2, Hc1, Hr1. lia.
Qed.

Example error_rate_loop_ex :
  error_rate_loop [1; -1; 0; 1] [7; 7; 1; 1; 1; 1] 2
  = Ok (Tally 1 4 [0 / 1; 0 / 2; 1 / 3; 1 / 4]%Q).
Proof. reflexivity. Qed.

(** C2, as stated, fails.  With [predictions = [-1, 1]], [tl = 1] and
    [y = [9, 0, 0]] round 0 is abstained and round 1 is a wrong prediction:
    the loop appends 1/2 at round 1 (one error over two rounds), while the
    fraction of errors among predicted rounds is 1/1. *)
Lemma error_rate_not_over_predicted_rounds :
  ∃ s r, error_rate_loop [-1; 1] [9; 0; 0] 1 = Ok s
         ∧ error_rates s !! 1%nat = Some r
         ∧ Qeq r (1 # 2)
         ∧ Qeq (spec_error_rate (rounds_of [-1; 1] [9; 0; 0] 1) 1) 1
         ∧ ¬ Qeq r (spec_error_rate (rounds_of [-1; 1] [9; 0; 0] 1) 1).
Proof.
  eexists _, _. split; [reflexivity|]. split; [reflexivity|].
  repeat split; vm_compute; congruence.
Qed.

(** C2 (amended): in cell 9 the rate appended at round [i] is the number of
    rounds up to [i] where a non-abstained prediction differed from the true
    label, divided by [i + 1], the number of all rounds up to [i],
    abstained ones included. *)
Theorem error_rate_over_all_rounds predictions y tl (i : nat) :
  0 ≤ tl → tl + len predictions ≤ len y → (i < length predictions)%nat →
  ∃ s, error_rate_loop predictions y tl = Ok s
       ∧ error_rates s !! i
         = Some (Qdiv (inject_Z (errors_among (take (S i) (rounds_of predictions y tl))))
                      (inject_Z (Z.of_nat (S i))))
       ∧ length (take (S i) (rounds_of predictions y tl)) = S i.
Proof.
  intros Htl Hy Hi. eexists. split.
  { unfold error_rate_loop, len. by apply error_rate_upto_spec. }
  cbn [error_rates]. split.
  - rewrite list_lookup_fmap, lookup_seq_lt by done. reflexivity.
  - unfold rounds_of, len in *.
    rewrite length_take, length_zip_with, length_drop. lia.
Qed.

Lemma error_rate_over_all_rounds_witness :
  ∃ s, error_rate_loop [-1; 1] [9; 0; 0] 1 = Ok s
       ∧ error_rates s !! 1%nat
         = Some (Qdiv (inject_Z (errors_among (take 2 (rounds_of [-1; 1] [9; 0; 0] 1))))
                      (inject_Z 2))
       ∧ length (take 2 (rounds_of [-1; 1] [9; 0; 0] 1)) = 2%nat.
Proof.
  apply (error_rate_over_all_rounds [-1; 1] [9; 0; 0] 1 1);
    [lia | vm_compute; congruence | simpl; lia].
Defined.

(** C8: in cell 9, when a rate is appended at iteration [i] the counter
    [counter_sp] is [i + 1]: the test [counter_sp == 0] is false, the
    division is by a positive integer, and after the loop
    [len(error_rates)] is [total_preds].  ([y] holds a label for every
    prediction, as cell 8 leaves it.) *)
Theorem counter_sp_counts_every_round predictions y tl :
  0 ≤ tl → tl + len predictions ≤ len y →
  (∀ i : nat, (i < length predictions)%nat →
     ∃ s s', error_rate_upto predictions y tl (Z.of_nat i) = Ok s
             ∧ count_round predictions y tl (Z.of_nat i) s = Ok s'
             ∧ counter_sp s' = Z.of_nat i + 1
             ∧ bool_decide (counter_sp s' = 0) = false
             ∧ 0 < counter_sp s'
             ∧ append_rate s'
               = Tally (errors s') (counter_sp s')
                   (error_rates s ++ [(inject_Z (errors s') / inject_Z (counter_sp s'))%Q])
             ∧ error_rate_upto predictions y tl (Z.of_nat i + 1) = Ok (append_rate s'))
  ∧ ∃ s, error_rate_loop predictions y tl = Ok s
         ∧ len (error_rates s) = len predictions.
Proof.
  intros Htl Hy. split.
  - intros i Hi. unfold len in Hy.
    destruct (lookup_lt_is_Some_2 predictions i ltac:(lia)) as [p Hp].
    destruct (lookup_lt_is_Some_2 y (Z.to_nat (Z.of_nat i + tl)) ltac:(lia)) as [l Hl].
    eexists _, _. split; [apply error_rate_upto_spec; [done..|lia]|].
    split; [by apply (rate_body_round _ _ _ _ p l)|].
    cbn [counter_sp errors error_rates].
    assert (Hc : bool_decide (Z.of_nat i + 1 = 0) = false)
      by (apply bool_decide_eq_false_2; lia).
    split; [done|]. split; [done|]. split; [lia|].
    unfold append_rate. cbn [counter_sp errors error_rates]. rewrite Hc.
    split; [done|].
    unfold error_rate_upto.
    pose proof (range_snoc 0 i) as Hr. rewrite !Z.add_0_l in Hr.
    replace (range 0 (Z.of_nat i + 1)) with (range 0 (Z.of_nat i) ++ [Z.of_nat i])
      by (rewrite <- Hr; f_equal; lia).
    erewrite for_each_snoc by (apply error_rate_upto_spec; [done..|lia]).
    unfold rate_body. rewrite (rate_body_round _ _ _ _ p l) by done.
    unfold fmap, result_fmap, append_rate. cbn [counter_sp errors error_rates].
    by rewrite Hc.
  - eexists. split.
    { unfold error_rate_loop, len. by apply error_rate_upto_spec. }
    cbn [error_rates]. unfold len. by rewrite length_fmap, length_seq.
Qed.

Lemma counter_sp_counts_every_round_witness :
  (0 ≤ 2 ∧ 2 + len [1; -1; 0; 1] ≤ len [7; 7; 1; 1; 1; 1])
  ∧ ∃ s, error_rate_loop [1; -1; 0; 1] [7; 7; 1; 1; 1; 1] 2 = Ok s
         ∧ len (error_rates s) = len [1; -1; 0; 1].
Proof.
  assert (H0 : 0 ≤ 2) by lia.
  assert (H1 : 2 + len [1; -1; 0; 1] ≤ len [7; 7; 1; 1; 1; 1])
    by (vm_compute; congruence).
  split; [done|].
  exact (proj2 (counter_sp_counts_every_round [1; -1; 0; 1] [7; 7; 1; 1; 1; 1] 2 H0 H1)).
Defined.

(** ** Cell 3 *)

(** C3 (amended): every label of the demo's original label space {-1, 1} is
    remapped by cell 3 to a label in {0, 1}; no such label equals the
    abstention marker -1, so the test [predictions[i] != (-1)] of cell 9
    holds for every prediction that is a valid label of the demo. *)
Theorem remapped_labels_differ_from_abstain (ys : list Z) :
  Forall (λ y, y = -1 ∨ y = 1) ys →
  Forall (λ l, (l = 0 ∨ l = 1) ∧ l ≠ abstain ∧ bool_decide (l ≠ abstain) = true)
         (remap <$> ys).
Proof.
  intros Hys. apply Forall_fmap. eapply Forall_impl; [exact Hys|].
  intros y [-> | ->]; vm_compute; intuition congruence.
Qed.

Lemma remapped_labels_differ_from_abstain_witness :
  Forall (λ y, y = -1 ∨ y = 1) [-1; 1; 1]
  ∧ Forall (λ l, (l = 0 ∨ l = 1) ∧ l ≠ abstain ∧ bool_decide (l ≠ abstain) = true)
           (remap <$> [-1; 1; 1]).
Proof.
  assert (H : Forall (λ y, y = -1 ∨ y = 1) [-1; 1; 1])
    by (repeat constructor; lia).
  split; [exact H | exact (remapped_labels_differ_from_abstain [-1; 1; 1] H)].
Defined.

(** Without the remap the original label -1 is the marker itself. *)
Remark original_label_is_abstain : ∃ y, (y = -1 ∨ y = 1) ∧ y = abstain.
Proof. exists (-1). split; [by left | done]. Qed.

(** C3, as stated, fails beyond the demo's label space: the marker can equal
    a label the estimator legitimately outputs.  Cell 3 remaps the original
    labels -3 and -4 to -1, the marker itself, and then cell 9 takes a
    prediction of that class for an abstention: predicted where the true
    label is the remap of 1, it is wrong and yet no error is counted. *)
Lemma abstain_equals_a_remapped_label :
  remap (-3) = abstain
  ∧ remap (-4) = abstain
  ∧ remap (-3) ≠ remap 1
  ∧ ∃ s, error_rate_loop [remap (-3)] [remap 1] 0 = Ok s ∧ errors s = 0.
Proof.
  split; [reflexivity|]. split; [reflexivity|]. split; [by vm_compute|].
  eexists. split; reflexivity.
Qed.

(** ** Cell 5 *)

Example change_points_ex :
  change_points 1 () [0; 1; 1; 0; 1; 0] = Ok ((), [0; 1; 1; 1; 0; 1]).
Proof. reflexivity. Qed.

(** With more change points than the array can be cut into, the segments
    are empty and [min] raises. *)
Example change_points_empty_segment :
  change_points 2 () [0; 1] = Raise ValueError.
Proof. reflexivity. Qed.

(** C10: with [numCP == 0] the guard of line 131 is false (and
    [range(1, numCP + 1)] is empty): the block performs no iteration, draws
    no permutation and leaves [holdout_y] as it was. *)
Theorem no_change_points_no_change `{Shuffler G} (g : G) (holdout_y : list Z) :
  change_points 0 g holdout_y = Ok (g, holdout_y)
  ∧ bool_decide (0 ≠ 0) = false
  ∧ range 1 (0 + 1) = [].
Proof. done. Qed.

(** [min] and [max] of a non-empty sequence are elements and bounds of it. *)
Lemma foldl_min_spec (l : list Z) x :
  foldl Z.min x l ∈ x :: l ∧ Forall (λ y, foldl Z.min x l ≤ y) (x :: l).
Proof.
  revert x. induction l as [|z l IH]; intros x; simpl.
  { split; [by left | repeat constructor; lia]. }
  destruct (IH (Z.min x z)) as [Hin Hall]. split.
  - apply elem_of_cons in Hin as [Heq | Hin]; [|by do 2 right].
    rewrite Heq. destruct (Z.min_spec x z) as [[_ ->] | [_ ->]];
      solve [by left | by right; left].
  - apply Forall_cons in Hall as [Hm Hall].
    repeat constructor; [lia | lia | done].
Qed.

Lemma foldl_max_spec (l : list Z) x :
  foldl Z.max x l ∈ x :: l ∧ Forall (λ y, y ≤ foldl Z.max x l) (x :: l).
Proof.
  revert x. induction l as [|z l IH]; intros x; simpl.
  { split; [by left | repeat constructor; lia]. }
  destruct (IH (Z.max x z)) as [Hin Hall]. split.
  - apply elem_of_cons in Hin as [Heq | Hin]; [|by do 2 right].
    rewrite Heq. destruct (Z.max_spec x z) as [[_ ->] | [_ ->]];
      solve [by left | by right; left].
  - apply Forall_cons in Hall as [Hm Hall].
    repeat constructor; [lia | lia | done].
Qed.

Lemma py_min_spec l mn : py_min l = Ok mn → mn ∈ l ∧ Forall (λ y, mn ≤ y) l.
Proof.
  destruct l as [|x l]; [done|]. intros [= <-]. apply foldl_min_spec.
Qed.

Lemma py_max_spec l mx : py_max l = Ok mx → mx ∈ l ∧ Forall (λ y, y ≤ mx) l.
Proof.
  destruct l as [|x l]; [done|]. intros [= <-]. apply foldl_max_spec.
Qed.

(** When [l[k]] returns. *)
Lemma py_index_ok {A} (l : list A) k :
  - len l ≤ k < len l → ∃ x, py_index l k = Ok x.
Proof.
  intros Hk. unfold py_index, len in *.
  destruct (decide (k < 0)) as [Hneg | Hneg];
    [rewrite (bool_decide_eq_true_2 (k < 0)) by done
    |rewrite (bool_decide_eq_false_2 (k < 0)) by done];
    (rewrite bool_decide_eq_true_2 by lia).
  - destruct (lookup_lt_is_Some_2 l (Z.to_nat (k + Z.of_nat (length l))) ltac:(lia))
      as [x ->]. by exists x.
  - destruct (lookup_lt_is_Some_2 l (Z.to_nat k) ltac:(lia)) as [x ->]. by exists x.
Qed.

Lemma py_index_raise {A} (l : list A) k :
  ¬ (- len l ≤ k < len l) → py_index l k = Raise IndexError.
Proof.
  intros Hk. unfold py_index, len in *.
  case_bool_decide; case_bool_decide; try done.
  - rewrite lookup_ge_None_2; [done | lia].
  - rewrite lookup_ge_None_2; [done | lia].
Qed.

Lemma py_setitem_nat {A} (l : list A) (n : nat) v :
  (n < length l)%nat → py_setitem l (Z.of_nat n) v = Ok (<[n := v]> l).
Proof.
  intros Hn. unfold py_setitem, len.
  rewrite (bool_decide_eq_false_2 (Z.of_nat n < 0)) by lia.
  rewrite bool_decide_eq_true_2 by lia. by rewrite Nat2Z.id.
Qed.

(** A slice with bounds inside the array. *)
Lemma py_slice_nat {A} (l : list A) (a b : nat) :
  (a ≤ b ≤ length l)%nat →
  py_slice l (Z.of_nat a) (Z.of_nat b) = take (b - a) (drop a l).
Proof.
  intros Hab. unfold py_slice, slice_bound, len.
  rewrite !(bool_decide_eq_false_2 (Z.of_nat _ < 0)) by lia.
  by replace (Z.to_nat (Z.of_nat b `min` Z.of_nat (length l))) with b by lia;
     replace (Z.to_nat (Z.of_nat a `min` Z.of_nat (length l))) with a by lia.
Qed.

Lemma elem_of_segment {A} (l : list A) (a b : nat) x :
  x ∈ take (b - a) (drop a l) ↔ ∃ k, (a ≤ k < b)%nat ∧ l !! k = Some x.
Proof.
  rewrite list_elem_of_lookup. split.
  - intros [j Hj]. apply lookup_take_Some in Hj as [Hj Hlt].
    rewrite lookup_drop in Hj. exists (a + j)%nat. split; [lia | done].
  - intros (k & Hk & Hx). exists (k - a)%nat.
    rewrite lookup_take_lt by lia. rewrite lookup_drop.
    by replace (a + (k - a))%nat with k by lia.
Qed.

(** Line 135 at an index inside the array. *)
Lemma relabel_at p (a : nat) y x :
  y !! a = Some x →
  relabel p (Z.of_nat a) y = v ← py_index p x; Ok (<[a := v]> y).
Proof.
  intros Hx. unfold relabel. rewrite (py_index_nat _ _ _ Hx). simpl.
  destruct (py_index p x) as [v|e]; simpl; [|done].
  apply py_setitem_nat. by eapply lookup_lt_Some.
Qed.

(** The inner loop returns when every label it reads is an index of the
    permutation array.  Each label is read before its slot is written, so
    the labels read are those the segment held when the loop started. *)
Lemma relabel_loop_ok p (n : nat) : ∀ (a : nat) y,
  (a + n ≤ length y)%nat →
  (∀ k x, (a ≤ k < a + n)%nat → y !! k = Some x → - len p ≤ x < len p) →
  ∃ y', for_each (relabel p) (range (Z.of_nat a) (Z.of_nat (a + n))) y = Ok y'
        ∧ length y' = length y
        ∧ (∀ k, ¬ (a ≤ k < a + n)%nat → y' !! k = y !! k)
        ∧ (∀ k x, (a ≤ k < a + n)%nat → y !! k = Some x →
             ∃ v, py_index p x = Ok v ∧ y' !! k = Some v).
Proof.
  induction n as [|n IH]; intros a y Hlen Hseg.
  { rewrite range_nil by lia. exists y. repeat split; try done. intros; lia. }
  rewrite range_cons by lia. simpl.
  destruct (lookup_lt_is_Some_2 y a ltac:(lia)) as [x Hx].
  rewrite (relabel_at _ _ _ _ Hx).
  destruct (py_index_ok p x (Hseg a x ltac:(lia) Hx)) as [v Hv]. rewrite Hv. simpl.
  destruct (IH (S a) (<[a := v]> y)) as (y' & Hy' & Hl & Hout & Hin).
  - rewrite length_insert. lia.
  - intros k z Hk Hz. rewrite list_lookup_insert_ne in Hz by lia.
    apply (Hseg k z); [lia | done].
  - exists y'. rewrite length_insert in Hl. split; [|split; [done|split]].
    + rewrite <- Hy'. f_equal. f_equal; lia.
    + intros k Hk. rewrite Hout by lia. apply list_lookup_insert_ne. lia.
    + intros k z Hk Hz. destruct (decide (k = a)) as [-> | Hne].
      * assert (z = x) as -> by congruence. exists v. split; [done|].
        rewrite Hout by lia. apply list_lookup_insert_eq. lia.
      * apply Hin; [lia|]. by rewrite list_lookup_insert_ne by lia.
Qed.

(** The inner loop raises [IndexError] when some label it reads is not an
    index of the permutation array. *)
Lemma relabel_loop_raise p (n : nat) : ∀ (a : nat) y,
  (a + n ≤ length y)%nat →
  (∃ k x, (a ≤ k < a + n)%nat ∧ y !! k = Some x ∧ ¬ (- len p ≤ x < len p)) →
  for_each (relabel p) (range (Z.of_nat a) (Z.of_nat (a + n))) y = Raise IndexError.
Proof.
  induction n as [|n IH]; intros a y Hlen (k & x & Hk & Hx & Hbad); [lia|].
  rewrite range_cons by lia. simpl.
  destruct (lookup_lt_is_Some_2 y a ltac:(lia)) as [x0 Hx0].
  rewrite (relabel_at _ _ _ _ Hx0).
  destruct (decide (- len p ≤ x0 < len p)) as [Hin | Hout].
  - destruct (py_index_ok p x0 Hin) as [v ->]. simpl.
    assert (k ≠ a) by (intros ->; congruence).
    replace (Z.of_nat a + 1) with (Z.of_nat (S a)) by lia.
    replace (Z.of_nat (a + S n)) with (Z.of_nat (S a + n)) by lia.
    apply IH; [rewrite length_insert; lia|].
    exists k, x. split; [lia|]. split; [|done].
    by rewrite list_lookup_insert_ne by lia.
  - by rewrite (py_index_raise p x0 Hout).
Qed.

Lemma length_arange a b : len (arange a b) = Z.max 0 (b - a).
Proof. unfold len, arange. rewrite length_range. lia. Qed.

Lemma length_permuted_labels `{Shuffler G} (g : G) mn mx :
  mn ≤ mx → len (permutation g (arange mn (mx + 1))).2 = mx - mn + 1.
Proof.
  intros Hm. unfold len. rewrite (Permutation_length (permutation_perm g _)).
  fold (len (arange mn (mx + 1))). rewrite length_arange. lia.
Qed.

(** The segment of pass [i] lies inside the array. *)
Lemma segment_inside (T numCP i : Z) :
  0 ≤ T → 1 ≤ i ≤ numCP →
  0 ≤ T / (numCP + 1)
  ∧ 0 ≤ i * (T / (numCP + 1))
  ∧ (i + 1) * (T / (numCP + 1)) ≤ T.
Proof.
  intros HT Hi.
  assert (Hw : 0 ≤ T / (numCP + 1)) by (apply Z.div_pos; lia).
  pose proof (Z.mul_div_le T (numCP + 1) ltac:(lia)).
  repeat split; nia.
Qed.

(** One pass of the outer loop on a non-empty segment with minimum [mn] and
    maximum [mx]: it returns, with every label of the segment replaced by
    the entry of the permutation array it indexes and the rest of the array
    untouched, when [mn ≤ 0] and [-1 ≤ mx]; it raises [IndexError]
    otherwise. *)
Lemma shuffle_segment_cases `{Shuffler G} (numCP i : Z) (g : G) (y : list Z) mn mx :
  1 ≤ i ≤ numCP →
  py_min (py_slice y (i * (len y / (numCP + 1))) ((i + 1) * (len y / (numCP + 1)))) = Ok mn →
  py_max (py_slice y (i * (len y / (numCP + 1))) ((i + 1) * (len y / (numCP + 1)))) = Ok mx →
  (mn ≤ 0 ∧ -1 ≤ mx →
     ∃ y', shuffle_segment (len y) numCP i (g, y)
           = Ok ((permutation g (arange mn (mx + 1))).1, y')
           ∧ length y' = length y
           ∧ ∀ (t : nat) l, y !! t = Some l →
               if bool_decide (i * (len y / (numCP + 1)) ≤ Z.of_nat t
                               < (i + 1) * (len y / (numCP + 1)))
               then ∃ v, py_index (permutation g (arange mn (mx + 1))).2 l = Ok v
                         ∧ y' !! t = Some v
               else y' !! t = Some l)
  ∧ (¬ (mn ≤ 0 ∧ -1 ≤ mx) →
     shuffle_segment (len y) numCP i (g, y) = Raise IndexError).
Proof.
  intros Hi Hmin Hmax.
  destruct (segment_inside (len y) numCP i ltac:(unfold len; lia) Hi) as (Hw & Ha & Hb).
  unfold shuffle_segment. cbn [fst snd]. rewrite Hmin, Hmax. cbn [mbind result_bind].
  revert Hw Hmin Hmax Ha Hb.
  generalize (len y / (numCP + 1)). intros w Hw Hmin Hmax Ha Hb.
  assert (0 < w) as Hpos.
  { destruct (decide (w = 0)) as [-> | ?]; [|lia].
    rewrite !Z.mul_0_r in Hmin. by destruct y. }
  set (a := Z.to_nat (i * w)). set (n := Z.to_nat w).
  assert (i * w = Z.of_nat a) as Ea by lia.
  assert ((i + 1) * w = Z.of_nat (a + n)) as Eb by lia.
  rewrite Ea, Eb in *. unfold len in Hb.
  rewrite py_slice_nat in Hmin, Hmax by lia.
  apply py_min_spec in Hmin as [Hmn_in Hmn]. apply py_max_spec in Hmax as [Hmx_in Hmx].
  rewrite Forall_forall in Hmn, Hmx.
  assert (mn ≤ mx) as Hle by (by apply Hmx).
  pose proof (length_permuted_labels g mn mx Hle) as Hlen.
  set (gp := permutation g (arange mn (mx + 1))) in *.
  assert (∀ k x, (a ≤ k < a + n)%nat → y !! k = Some x → mn ≤ x ≤ mx) as Hseg.
  { intros k x Hk Hx.
    assert (x ∈ take (a + n - a) (drop a y)) by (apply elem_of_segment; eauto).
    split; [by apply Hmn | by apply Hmx]. }
  split.
  - intros [H0 H1].
    destruct (relabel_loop_ok gp.2 n a y ltac:(lia)) as (y' & -> & Hl & Hout & Hin).
    { intros k x Hk Hx. specialize (Hseg k x Hk Hx). lia. }
    exists y'. split; [done|]. split; [done|].
    intros t l Ht. case_bool_decide.
    + apply (Hin t l); [lia | done].
    + rewrite Hout by lia. done.
  - intros Hbad.
    assert (∃ x, x ∈ take (a + n - a) (drop a y) ∧ ¬ (- len gp.2 ≤ x < len gp.2))
      as (x & Hx & Hxbad).
    { destruct (decide (0 < mn)); [exists mx | exists mn]; (split; [done | lia]). }
    apply elem_of_segment in Hx as (k & Hk & Hx).
    rewrite (relabel_loop_raise gp.2 n a y ltac:(lia)); [done|].
    by exists k, x.
Qed.

(** C9, as stated, fails in two places.  A negative index counts from the
    end of a numpy array: on the segment [-1, 1] (the original label space)
    the permutation array has three entries and both [-1] and [1] index it,
    although the segment's minimum is not 0.  And a segment of the remapped
    label space {0, 1} that holds only the label 1 has minimum 1: the
    permutation array has one entry and index 1 raises [IndexError]. *)
Lemma index_in_bounds_not_only_at_minimum_zero :
  (segment [-1; 1; -1; 1] 1 1 = [-1; 1]
   ∧ py_min (segment [-1; 1; -1; 1] 1 1) = Ok (-1)
   ∧ shuffle_segment 4 1 1 ((), [-1; 1; -1; 1]) = Ok ((), [-1; 1; -1; 0])
   ∧ change_points 1 () [-1; 1; -1; 1] = Ok ((), [-1; 1; -1; 0]))
  ∧ (segment [0; 1; 1; 1] 1 1 = [1; 1]
     ∧ Forall (λ l, l = 0 ∨ l = 1) [0; 1; 1; 1]
     ∧ py_min (segment [0; 1; 1; 1] 1 1) = Ok 1
     ∧ shuffle_segment 4 1 1 ((), [0; 1; 1; 1]) = Raise IndexError
     ∧ change_points 1 () [0; 1; 1; 1] = Raise IndexError).
Proof.
  split; repeat split; try reflexivity.
  repeat constructor; lia.
Qed.

(** C9 (amended): in pass [i] of the change-point block the permutation
    array has length max - min + 1 of the segment's labels and is indexed by
    the label value itself.  The indexing is in bounds for every [t] of the
    segment exactly when the segment's minimum label is at most 0 and its
    maximum at least -1 (a negative index counts from the end), and the pass
    raises [IndexError] otherwise; for a segment of non-negative labels,
    exactly when its minimum label is 0; for a segment of labels in {0, 1},
    exactly when it holds a 0; never when the minimum label is above 0. *)
Theorem permuted_labels_index_bounds `{Shuffler G}
    (numCP i : Z) (g : G) (holdout_y : list Z) (mn mx : Z) :
  1 ≤ i ≤ numCP →
  py_min (segment holdout_y numCP i) = Ok mn →
  py_max (segment holdout_y numCP i) = Ok mx →
  len (permutation g (arange mn (mx + 1))).2 = mx - mn + 1
  ∧ ((∃ r, shuffle_segment (len holdout_y) numCP i (g, holdout_y) = Ok r)
     ↔ mn ≤ 0 ∧ -1 ≤ mx)
  ∧ (¬ (mn ≤ 0 ∧ -1 ≤ mx) →
     shuffle_segment (len holdout_y) numCP i (g, holdout_y) = Raise IndexError)
  ∧ (0 ≤ mn →
     (∃ r, shuffle_segment (len holdout_y) numCP i (g, holdout_y) = Ok r) ↔ mn = 0)
  ∧ (Forall (λ l, l = 0 ∨ l = 1) (segment holdout_y numCP i) →
     (∃ r, shuffle_segment (len holdout_y) numCP i (g, holdout_y) = Ok r)
     ↔ 0 ∈ segment holdout_y numCP i)
  ∧ (0 < mn →
     shuffle_segment (len holdout_y) numCP i (g, holdout_y) = Raise IndexError).
Proof.
  intros Hi Hmin Hmax.
  destruct (shuffle_segment_cases numCP i g holdout_y mn mx Hi Hmin Hmax)
    as [Hok Hraise].
  destruct (py_min_spec _ _ Hmin) as [Hmn_in Hmn].
  destruct (py_max_spec _ _ Hmax) as [Hmx_in Hmx].
  rewrite Forall_forall in Hmn, Hmx.
  assert (Hiff : (∃ r, shuffle_segment (len holdout_y) numCP i (g, holdout_y) = Ok r)
                 ↔ mn ≤ 0 ∧ -1 ≤ mx).
  { split.
    - intros [r Hr]. destruct (decide (mn ≤ 0 ∧ -1 ≤ mx)) as [|Hbad]; [done|].
      rewrite (Hraise Hbad) in Hr. discriminate.
    - intros Hb. destruct (Hok Hb) as (y' & Hy' & _). eauto. }
  split; [apply length_permuted_labels; by apply Hmx|].
  split; [done|]. split; [done|]. split; [|split].
  - intros Hnn. rewrite Hiff. specialize (Hmx mn Hmn_in). lia.
  - intros Hbin. rewrite Forall_forall in Hbin. rewrite Hiff. split.
    + intros [H0 _]. destruct (Hbin mn Hmn_in) as [-> | ->]; [done | lia].
    + intros H0. specialize (Hmn 0 H0). destruct (Hbin mx Hmx_in); lia.
  - intros Hpos. apply Hraise. lia.
Qed.

Lemma permuted_labels_index_bounds_witness :
  (1 ≤ 1 ≤ 1
   ∧ py_min (segment [0; 1; 1; 0; 1; 0] 1 1) = Ok 0
   ∧ py_max (segment [0; 1; 1; 0; 1; 0] 1 1) = Ok 1)
  ∧ len (permutation () (arange 0 (1 + 1))).2 = 1 - 0 + 1
  ∧ ((∃ r, shuffle_segment (len [0; 1; 1; 0; 1; 0]) 1 1 ((), [0; 1; 1; 0; 1; 0]) = Ok r)
     ↔ 0 ≤ 0 ∧ -1 ≤ 1).
Proof.
  assert (Hi : 1 ≤ 1 ≤ 1) by lia.
  assert (Hmin : py_min (segment [0; 1; 1; 0; 1; 0] 1 1) = Ok 0) by reflexivity.
  assert (Hmax : py_max (segment [0; 1; 1; 0; 1; 0] 1 1) = Ok 1) by reflexivity.
  split; [done|].
  pose proof (permuted_labels_index_bounds 1 1 () [0; 1; 1; 0; 1; 0] 0 1 Hi Hmin Hmax)
    as (Hlen & Hiff & _).
  split; [exact Hlen | exact Hiff].
Defined.

(** ** More on cell 9: what the tracked rate can be *)

Lemma rate_in_unit_interval (e c : Z) :
  0 ≤ e ≤ c → 0 < c → (0 <= inject_Z e / inject_Z c <= 1)%Q.
Proof.
  intros He Hc.
  assert (0 < inject_Z c)%Q as Hq
    by (change 0%Q with (inject_Z 0); rewrite <- Zlt_Qlt; lia).
  split.
  - apply Qle_shift_div_l; [done|]. rewrite Qmult_0_l.
    change 0%Q with (inject_Z 0). rewrite <- Zle_Qle. lia.
  - apply Qle_shift_div_r; [done|]. rewrite Qmult_1_l.
    rewrite <- Zle_Qle. lia.
Qed.

Lemma count_round_errors predictions y tl i s s' :
  count_round predictions y tl i s = Ok s' →
  errors s ≤ errors s' ≤ errors s + 1.
Proof.
  unfold count_round.
  destruct (py_index predictions i) as [p|]; [|done]. simpl.
  case_bool_decide; simpl; [|intros [= <-]; simpl; lia].
  destruct (py_index y (i + tl)) as [l|]; [|done]. simpl.
  intros [= <-]. simpl. case_bool_decide; lia.
Qed.

Lemma rate_body_bounded predictions y tl i s s' :
  tally_bounded s → rate_body predictions y tl i s = Ok s' → tally_bounded s'.
Proof.
  intros [He Hr]. unfold rate_body.
  destruct (count_round predictions y tl i s) as [s1|] eqn:Hs1; [|done].
  simpl. intros [= <-].
  destruct (count_round_counter _ _ _ _ _ _ Hs1) as [Hc1 Hr1].
  pose proof (count_round_errors _ _ _ _ _ _ Hs1) as He1.
  unfold tally_bounded, append_rate. case_bool_decide; cbn [errors counter_sp error_rates].
  - lia.
  - split; [lia|]. rewrite Hr1. apply Forall_app. split; [done|].
    apply Forall_singleton. apply rate_in_unit_interval; lia.
Qed.

Lemma for_each_invariant {E A S} (P : S → Prop) (body : A → S → result E S) xs :
  (∀ x s s', P s → body x s = Ok s' → P s') →
  ∀ s s', P s → for_each body xs s = Ok s' → P s'.
Proof.
  intros Hbody. induction xs as [|x xs IH]; intros s s' Hs; simpl.
  { by intros [= <-]. }
  destruct (body x s) as [s1|] eqn:Hx; [|done]. simpl.
  apply IH. by eapply Hbody.
Qed.

(** Every rate the loop of cell 9 appends lies between 0 and 1, and the
    errors it counts never exceed the number of rounds. *)
Theorem error_rates_in_unit_interval predictions y tl0 s :
  error_rate_loop predictions y tl0 = Ok s →
  0 ≤ errors s ≤ counter_sp s
  ∧ ∀ (i : nat) r, error_rates s !! i = Some r → (0 <= r <= 1)%Q.
Proof.
  intros Hs.
  assert (tally_bounded s) as [He Hr].
  { eapply (for_each_invariant tally_bounded); [|
      |exact Hs].
    - intros x s0 s1. apply rate_body_bounded.
    - split; [simpl; lia | constructor]. }
  split; [done|]. intros i r Hi. rewrite Forall_forall in Hr.
  apply Hr. by eapply list_elem_of_lookup_2.
Qed.

Lemma error_rates_in_unit_interval_witness :
  ∃ s, error_rate_loop [1; -1; 0; 1] [7; 7; 1; 1; 1; 1] 2 = Ok s
       ∧ 0 ≤ errors s ≤ counter_sp s
       ∧ ∀ (i : nat) r, error_rates s !! i = Some r → (0 <= r <= 1)%Q.
Proof.
  eexists. split; [reflexivity|].
  exact (error_rates_in_unit_interval [1; -1; 0; 1] [7; 7; 1; 1; 1; 1] 2 _ eq_refl).
Defined.

Lemma zero_rate (c : Z) : Qeq (inject_Z 0 / inject_Z c) 0.
Proof. unfold Qdiv. apply Qmult_0_l. Qed.

Lemma error_rate_upto_all_abstained predictions y tl0 (n : nat) :
  Forall (λ p, p = abstain) predictions → (n ≤ length predictions)%nat →
  ∃ rates, error_rate_upto predictions y tl0 (Z.of_nat n) = Ok (Tally 0 (Z.of_nat n) rates)
           ∧ length rates = n ∧ Forall (λ r, Qeq r 0) rates.
Proof.
  intros Hall. induction n as [|n IH]; intros Hn.
  { exists []. by repeat split. }
  destruct (IH ltac:(lia)) as (rates & Hrun & Hlen & Hz).
  destruct (lookup_lt_is_Some_2 predictions n ltac:(lia)) as [p Hp].
  assert (p = abstain) as -> by (rewrite Forall_forall in Hall; apply Hall;
                                  by eapply list_elem_of_lookup_2).
  unfold error_rate_upto in *.
  pose proof (range_snoc 0 n) as Hr. rewrite !Z.add_0_l in Hr. rewrite Hr.
  rewrite (for_each_snoc _ _ _ _ _ Hrun).
  unfold rate_body, count_round. rewrite (py_index_nat _ _ _ Hp). simpl.
  unfold append_rate. cbn [counter_sp errors error_rates].
  rewrite bool_decide_eq_false_2 by lia.
  eexists. split; [do 2 f_equal; lia|]. split.
  - rewrite length_app. simpl. lia.
  - apply Forall_app. split; [done|]. apply Forall_singleton, zero_rate.
Qed.

(** A run in which every round is abstained tracks the rate 0 at every
    round, whatever [y] and [tl] are: the labels are never read, so the
    loop returns even on an empty [y]. *)
Theorem all_abstained_rates_zero predictions y tl0 :
  Forall (λ p, p = abstain) predictions →
  ∃ s, error_rate_loop predictions y tl0 = Ok s
       ∧ errors s = 0
       ∧ len (error_rates s) = len predictions
       ∧ Forall (λ r, Qeq r 0) (error_rates s).
Proof.
  intros Hall.
  destruct (error_rate_upto_all_abstained predictions y tl0 (length predictions) Hall)
    as (rates & Hrun & Hlen & Hz); [done|].
  eexists. split; [exact Hrun|]. cbn [errors error_rates].
  split; [done|]. split; [unfold len; by rewrite Hlen | done].
Qed.

Lemma all_abstained_rates_zero_witness :
  Forall (λ p, p = abstain) [-1; -1; -1]
  ∧ ∃ s, error_rate_loop [-1; -1; -1] [] 100 = Ok s
         ∧ errors s = 0
         ∧ len (error_rates s) = len [-1; -1; -1]
         ∧ Forall (λ r, Qeq r 0) (error_rates s).
Proof.
  assert (H : Forall (λ p, p = abstain) [-1; -1; -1]) by (by repeat constructor).
  split; [exact H | exact (all_abstained_rates_zero [-1; -1; -1] [] 100 H)].
Defined.

Lemma rate_antitone (e c : Z) :
  0 ≤ e → 0 < c → (inject_Z e / inject_Z (c + 1) <= inject_Z e / inject_Z c)%Q.
Proof.
  intros He Hc. destruct c as [|c|c]; try lia.
  replace (Z.pos c + 1) with (Z.pos (c + 1)) by lia.
  unfold Qle, Qdiv, Qmult, Qinv, inject_Z. simpl. nia.
Qed.

(** A round that adds no error (abstained, or predicted right) never
    raises the tracked rate: the same error count is divided by one more
    round. *)
Theorem rate_drops_without_error predictions y tl0 (i : nat) p l :
  0 ≤ tl0 → tl0 + len predictions ≤ len y →
  predictions !! S i = Some p →
  y !! Z.to_nat (Z.of_nat (S i) + tl0) = Some l →
  p = abstain ∨ p = l →
  ∃ s r r', error_rate_loop predictions y tl0 = Ok s
            ∧ error_rates s !! i = Some r
            ∧ error_rates s !! S i = Some r'
            ∧ (r' <= r)%Q.
Proof.
  intros Htl Hy Hp Hl Hok.
  pose proof (lookup_lt_Some _ _ _ Hp) as Hi.
  eexists _, _, _. split.
  { unfold error_rate_loop, len. by apply error_rate_upto_spec. }
  cbn [error_rates].
  split; [rewrite list_lookup_fmap, lookup_seq_lt by lia; reflexivity|].
  split; [rewrite list_lookup_fmap, lookup_seq_lt by lia; reflexivity|].
  simpl "+"%nat. unfold rate_over_rounds.
  rewrite (take_S_r _ (S i) (p, l)) by (by apply rounds_of_lookup).
  rewrite errors_among_snoc.
  destruct (decide (mispredicted (p, l))) as [[H1 H2] | _].
  { simpl in H1, H2. by destruct Hok. }
  replace (Z.of_nat (S (S i))) with (Z.of_nat (S i) + 1) by lia.
  apply rate_antitone; [|lia].
  unfold errors_among, len. lia.
Qed.

Lemma rate_drops_without_error_witness :
  ∃ s r r', error_rate_loop [0; -1] [9; 1; 1] 1 = Ok s
            ∧ error_rates s !! 0%nat = Some r
            ∧ error_rates s !! 1%nat = Some r'
            ∧ (r' <= r)%Q.
Proof.
  apply (rate_drops_without_error [0; -1] [9; 1; 1] 1 0 (-1) 1);
    [lia | vm_compute; congruence | reflexivity | reflexivity | by left].
Defined.

Lemma range_app lo mid hi :
  lo ≤ mid ≤ hi → range lo hi = range lo mid ++ range mid hi.
Proof.
  intros H. unfold range.
  replace (Z.to_nat (hi - lo)) with (Z.to_nat (mid - lo) + Z.to_nat (hi - mid))%nat by lia.
  rewrite seq_app, fmap_app. f_equal. simpl.
  replace (seq (Z.to_nat (mid - lo)) (Z.to_nat (hi - mid)))
    with (Nat.add (Z.to_nat (mid - lo)) <$> seq 0 (Z.to_nat (hi - mid)))
    by (rewrite fmap_add_seq; f_equal; lia).
  rewrite <- list_fmap_compose.
  apply list_fmap_ext. intros _ k _. simpl. lia.
Qed.

Lemma py_index_raises_only {A} (l : list A) k e :
  py_index l k = Raise e → e = IndexError.
Proof.
  unfold py_index. case_bool_decide; [|by intros [= <-]].
  destruct (l !! _); [done | by intros [= <-]].
Qed.

Lemma rate_body_raises_only predictions y tl0 i s e :
  rate_body predictions y tl0 i s = Raise e → e = IndexError.
Proof.
  unfold rate_body, count_round.
  destruct (py_index predictions i) as [p|e0] eqn:Hp; simpl.
  - case_bool_decide; simpl; [|done].
    destruct (py_index y (i + tl0)) as [l|e1] eqn:Hl; simpl; [done|].
    intros [= <-]. by eapply py_index_raises_only.
  - intros [= <-]. by eapply py_index_raises_only.
Qed.

Lemma for_each_raises {E A S} (P : E → Prop) (body : A → S → result E S) xs :
  (∀ x s e, body x s = Raise e → P e) →
  ∀ s e, for_each body xs s = Raise e → P e.
Proof.
  intros Hbody. induction xs as [|x xs IH]; intros s e; simpl; [done|].
  destruct (body x s) as [s1|e1] eqn:Hx; simpl; [apply IH|].
  intros [= <-]. by eapply Hbody.
Qed.

(** The loop of cell 9 returns exactly when every round that is not
    abstained has a label at [y[i+tl]] (a negative index counting from the
    end); otherwise it stops with [IndexError], and with no other
    exception. *)
Theorem error_rate_loop_returns_iff predictions y tl0 :
  ((∃ s, error_rate_loop predictions y tl0 = Ok s)
   ↔ ∀ (i : nat) p, predictions !! i = Some p → p ≠ abstain →
       - len y ≤ Z.of_nat i + tl0 < len y)
  ∧ ∀ e, error_rate_loop predictions y tl0 = Raise e → e = IndexError.
Proof.
  split; [split|].
  - intros [s Hs] i p Hp Hna.
    pose proof (lookup_lt_Some _ _ _ Hp) as Hi.
    unfold error_rate_loop, error_rate_upto, len in Hs.
    rewrite (range_app 0 (Z.of_nat i)), for_each_app in Hs by lia.
    destruct (for_each _ (range 0 (Z.of_nat i)) tally0) as [si|]; [|done].
    simpl in Hs. rewrite range_cons in Hs by lia. simpl in Hs.
    destruct (rate_body predictions y tl0 (Z.of_nat i) si) as [si'|] eqn:Hb; [|done].
    unfold rate_body, count_round in Hb.
    rewrite (py_index_nat _ _ _ Hp) in Hb. simpl in Hb.
    rewrite bool_decide_eq_true_2 in Hb by done.
    destruct (base.decide (- len y ≤ Z.of_nat i + tl0 < len y)) as [|Hbad]; [done|].
    by rewrite (py_index_raise _ _ Hbad) in Hb.
  - intros Hvalid. unfold error_rate_loop, len.
    assert (∀ n : nat, (n ≤ length predictions)%nat →
              ∃ s, error_rate_upto predictions y tl0 (Z.of_nat n) = Ok s) as Hn;
      [|by apply Hn].
    induction n as [|n IH]; intros Hn; [by eexists|].
    destruct (IH ltac:(lia)) as [s Hs]. unfold error_rate_upto in *.
    pose proof (range_snoc 0 n) as Hr. rewrite !Z.add_0_l in Hr. rewrite Hr.
    rewrite (for_each_snoc _ _ _ _ _ Hs).
    destruct (lookup_lt_is_Some_2 predictions n ltac:(lia)) as [p Hp].
    unfold rate_body, count_round. rewrite (py_index_nat _ _ _ Hp). simpl.
    case_bool_decide as Hna; simpl; [|by eexists].
    destruct (py_index_ok y _ (Hvalid n p Hp Hna)) as [l ->]. simpl. by eexists.
  - intros e. unfold error_rate_loop, error_rate_upto.
    apply (for_each_raises (λ e, e = IndexError)).
    intros x s e0. apply rate_body_raises_only.
Qed.

(** ** Cell 10: the plain classifier's error rate *)

Lemma wrong_among_snoc rs r :
  wrong_among (rs ++ [r])
  = if base.decide (wrong r) then wrong_among rs + 1 else wrong_among rs.
Proof.
  unfold wrong_among, len. rewrite filter_app, length_app.
  rewrite filter_cons, filter_nil.
  destruct (base.decide (wrong r)); simpl; lia.
Qed.

(** The loop invariant of cell 10. *)
Lemma base_error_rate_upto_spec base_predictions y tl0 (n : nat) :
  0 ≤ tl0 → tl0 + len base_predictions ≤ len y → (n ≤ length base_predictions)%nat →
  for_each (base_rate_body base_predictions y tl0) (range 0 (Z.of_nat n)) base_tally0
  = Ok (BaseTally (wrong_among (take n (rounds_of base_predictions y tl0))) (Z.of_nat n)
          ((λ k : nat, Qdiv (inject_Z (wrong_among (take (S k) (rounds_of base_predictions y tl0))))
                            (inject_Z (Z.of_nat (S k)))) <$> seq 0 n)).
Proof.
  intros Htl Hy. unfold len in Hy. induction n as [|n IH]; intros Hn; [done|].
  rewrite seq_S, fmap_app.
  pose proof (range_snoc 0 n) as Hr. rewrite !Z.add_0_l in Hr. rewrite Hr.
  rewrite (for_each_snoc _ _ _ _ _ (IH ltac:(lia))).
  destruct (lookup_lt_is_Some_2 base_predictions n ltac:(lia)) as [p Hp].
  destruct (lookup_lt_is_Some_2 y (Z.to_nat (Z.of_nat n + tl0)) ltac:(lia)) as [l Hl].
  pose proof (rounds_of_lookup _ _ _ _ _ _ Htl Hp Hl) as Hrs.
  unfold base_rate_body. rewrite (py_index_nat _ _ _ Hp). simpl.
  replace (Z.of_nat n + tl0) with (Z.of_nat (Z.to_nat (Z.of_nat n + tl0))) at 1 by lia.
  rewrite (py_index_nat _ _ _ Hl). cbn [mbind result_bind base_err counter base_error_rates].
  rewrite (take_S_r _ _ _ Hrs), wrong_among_snoc.
  replace (Z.of_nat n + 1) with (Z.of_nat (S n)) by lia.
  unfold wrong. cbn [fst snd].
  by destruct (base.decide (p ≠ l)); [rewrite bool_decide_eq_true_2 by done
                                      |rewrite bool_decide_eq_false_2 by done].
Qed.

(** In cell 10 the rate appended at round [i] is the number of rounds up to
    [i] where the plain classifier's prediction differed from the label,
    divided by [i + 1]; the divisor is never 0 and the loop returns one rate
    per prediction. *)
Theorem base_error_rate_over_all_rounds base_predictions y tl0 :
  0 ≤ tl0 → tl0 + len base_predictions ≤ len y →
  ∃ s, base_error_rate_loop base_predictions y tl0 = Ok s
       ∧ base_err s = wrong_among (rounds_of base_predictions y tl0)
       ∧ counter s = len base_predictions
       ∧ len (base_error_rates s) = len base_predictions
       ∧ ∀ i : nat, (i < length base_predictions)%nat →
           base_error_rates s !! i
           = Some (Qdiv (inject_Z (wrong_among (take (S i) (rounds_of base_predictions y tl0))))
                        (inject_Z (Z.of_nat (S i)))).
Proof.
  intros Htl Hy. eexists. split.
  { unfold base_error_rate_loop, len. by apply base_error_rate_upto_spec. }
  cbn [base_err counter base_error_rates]. split; [|split; [done|split]].
  - f_equal. apply take_ge. unfold rounds_of, len in *.
    rewrite length_zip_with, length_drop. lia.
  - unfold len. by rewrite length_fmap, length_seq.
  - intros i Hi. by rewrite list_lookup_fmap, lookup_seq_lt.
Qed.

Lemma base_error_rate_over_all_rounds_witness :
  ∃ s, base_error_rate_loop [1; 0; 0] [9; 1; 1; 0] 1 = Ok s
       ∧ base_err s = 1
       ∧ base_error_rates s !! 2%nat = Some (Qdiv (inject_Z 1) (inject_Z 3)).
Proof.
  destruct (base_error_rate_over_all_rounds [1; 0; 0] [9; 1; 1; 0] 1)
    as (s & Hs & He & _ & _ & Hr); [lia | vm_compute; congruence |].
  exists s. split; [exact Hs|]. split; [exact He|].
  exact (Hr 2%nat ltac:(simpl; lia)).
Defined.

Lemma rate_monotone (e1 e2 c : Z) :
  e1 ≤ e2 → 0 < c → (inject_Z e1 / inject_Z c <= inject_Z e2 / inject_Z c)%Q.
Proof.
  intros He Hc. unfold Qdiv. apply Qmult_le_compat_r.
  - rewrite <- Zle_Qle. lia.
  - apply Qinv_le_0_compat. change 0%Q with (inject_Z 0). rewrite <- Zle_Qle. lia.
Qed.

(** Replacing predictions by abstentions never adds an error: round by
    round, the prefix counts of cell 9 stay below those of cell 10. *)
Lemma errors_among_le_wrong_among predictions base_predictions y tl0 (n : nat) :
  0 ≤ tl0 → tl0 + len predictions ≤ len y →
  length predictions = length base_predictions →
  (∀ (i : nat) p b, predictions !! i = Some p → base_predictions !! i = Some b →
     p = b ∨ p = abstain) →
  (n ≤ length predictions)%nat →
  errors_among (take n (rounds_of predictions y tl0))
  ≤ wrong_among (take n (rounds_of base_predictions y tl0)).
Proof.
  intros Htl Hy Hlen Hrel. unfold len in Hy.
  induction n as [|n IH]; intros Hn; [done|].
  destruct (lookup_lt_is_Some_2 predictions n ltac:(lia)) as [p Hp].
  destruct (lookup_lt_is_Some_2 base_predictions n ltac:(lia)) as [b Hb].
  destruct (lookup_lt_is_Some_2 y (Z.to_nat (Z.of_nat n + tl0)) ltac:(lia)) as [l Hl].
  rewrite (take_S_r _ _ _ (rounds_of_lookup _ _ _ _ _ _ Htl Hp Hl)).
  rewrite (take_S_r _ _ _ (rounds_of_lookup _ _ _ _ _ _ Htl Hb Hl)).
  rewrite errors_among_snoc, wrong_among_snoc.
  specialize (IH ltac:(lia)).
  destruct (base.decide (mispredicted (p, l))) as [[H1 H2] | _];
    destruct (base.decide (wrong (b, l))) as [Hw | Hw]; try lia.
  exfalso. unfold wrong in Hw. simpl in *.
  destruct (Hrel n p b Hp Hb) as [-> | ->]; [by apply Hw | done].
Qed.

(** Cell 9 against cell 10: when every prediction of the controller is
    either the plain classifier's prediction for that round or an
    abstention, the rate cell 9 tracks is at every round at most the rate
    cell 10 tracks. *)
Theorem abstaining_never_raises_rate predictions base_predictions y tl0 :
  0 ≤ tl0 → tl0 + len predictions ≤ len y →
  length predictions = length base_predictions →
  (∀ (i : nat) p b, predictions !! i = Some p → base_predictions !! i = Some b →
     p = b ∨ p = abstain) →
  ∃ s sb, error_rate_loop predictions y tl0 = Ok s
          ∧ base_error_rate_loop base_predictions y tl0 = Ok sb
          ∧ errors s ≤ base_err sb
          ∧ ∀ (i : nat) r rb, error_rates s !! i = Some r →
              base_error_rates sb !! i = Some rb → (r <= rb)%Q.
Proof.
  intros Htl Hy Hlen Hrel. eexists _, _. split.
  { unfold error_rate_loop, len. by apply error_rate_upto_spec. }
  split.
  { unfold base_error_rate_loop, len. apply base_error_rate_upto_spec; [done| |done].
    unfold len in *. lia. }
  cbn [errors error_rates base_err base_error_rates]. split.
  - rewrite <- Hlen. apply errors_among_le_wrong_among; try done.
  - intros i r rb Hr Hrb.
    rewrite list_lookup_fmap in Hr, Hrb.
    destruct (seq 0 (length predictions) !! i) as [k|] eqn:Hk; [|done].
    apply lookup_seq in Hk as [-> Hi].
    rewrite lookup_seq_lt in Hrb by lia. simpl in Hr, Hrb.
    injection Hr as <-. injection Hrb as <-. unfold rate_over_rounds.
    apply rate_monotone; [|lia].
    apply errors_among_le_wrong_among; try done.
Qed.

Lemma abstaining_never_raises_rate_witness :
  ∃ s sb, error_rate_loop [0; -1; 1] [9; 1; 1; 0] 1 = Ok s
          ∧ base_error_rate_loop [0; 0; 1] [9; 1; 1; 0] 1 = Ok sb
          ∧ errors s ≤ base_err sb
          ∧ ∀ (i : nat) r rb, error_rates s !! i = Some r →
              base_error_rates sb !! i = Some rb → (r <= rb)%Q.
Proof.
  apply (abstaining_never_raises_rate [0; -1; 1] [0; 0; 1] [9; 1; 1; 0] 1);
    [lia | vm_compute; congruence | reflexivity |].
  intros [|[|[|i]]] p b Hp Hb; simpl in Hp, Hb; try done;
    injection Hp as <-; injection Hb as <-; [by left | by right | by left].
Defined.

Lemma errors_among_no_abstention (rs : list (Z * Z)) :
  Forall (λ r, r.1 ≠ abstain) rs → errors_among rs = wrong_among rs.
Proof.
  unfold errors_among, wrong_among, len.
  induction 1 as [|r rs Hr Hrs IH]; [done|].
  rewrite !filter_cons.
  destruct (base.decide (mispredicted r)) as [[_ Hm] | Hm];
    destruct (base.decide (wrong r)) as [Hw | Hw]; simpl; try lia.
  - by destruct Hw.
  - by destruct Hm.
Qed.

(** With no abstention among the predictions, cell 9 computes what cell 10
    computes on the same predictions: the same error count and the same
    rates. *)
Theorem error_rate_loop_without_abstention predictions y tl0 :
  0 ≤ tl0 → tl0 + len predictions ≤ len y →
  Forall (λ p, p ≠ abstain) predictions →
  ∃ s sb, error_rate_loop predictions y tl0 = Ok s
          ∧ base_error_rate_loop predictions y tl0 = Ok sb
          ∧ errors s = base_err sb
          ∧ counter_sp s = counter sb
          ∧ error_rates s = base_error_rates sb.
Proof.
  intros Htl Hy Hna.
  assert (∀ n, errors_among (take n (rounds_of predictions y tl0))
               = wrong_among (take n (rounds_of predictions y tl0))) as Heq.
  { intros n. apply errors_among_no_abstention, Forall_forall.
    intros [p l] Hin. apply subseteq_take in Hin. unfold rounds_of in Hin.
    apply elem_of_zip_l in Hin. rewrite Forall_forall in Hna. by apply Hna. }
  eexists _, _. split.
  { unfold error_rate_loop, len. by apply error_rate_upto_spec. }
  split.
  { unfold base_error_rate_loop, len. by apply base_error_rate_upto_spec. }
  cbn [errors counter_sp error_rates base_err counter base_error_rates].
  split; [apply Heq|]. split; [done|].
  apply list_fmap_ext. intros _ k _. unfold rate_over_rounds. by rewrite Heq.
Qed.

Lemma error_rate_loop_without_abstention_witness :
  ∃ s sb, error_rate_loop [1; 0; 0] [9; 1; 1; 0] 1 = Ok s
          ∧ base_error_rate_loop [1; 0; 0] [9; 1; 1; 0] 1 = Ok sb
          ∧ errors s = base_err sb
          ∧ counter_sp s = counter sb
          ∧ error_rates s = base_error_rates sb.
Proof.
  apply (error_rate_loop_without_abstention [1; 0; 0] [9; 1; 1; 0] 1);
    [lia | vm_compute; congruence | repeat constructor; by vm_compute].
Defined.

(** ** More on cell 5: what the block changes and when it returns *)

Lemma for_each_invariant_elem {E A S} (P : S → Prop) (body : A → S → result E S) xs :
  (∀ x s s', x ∈ xs → P s → body x s = Ok s' → P s') →
  ∀ s s', P s → for_each body xs s = Ok s' → P s'.
Proof.
  induction xs as [|x xs IH]; intros Hbody s s' Hs; simpl.
  { by intros [= <-]. }
  destruct (body x s) as [s1|] eqn:Hx; [|done]. simpl.
  apply IH.
  - intros x' s0 s0' Hin. apply Hbody. by right.
  - eapply Hbody; [by left | exact Hs | exact Hx].
Qed.

Lemma elem_of_range lo hi k : k ∈ range lo hi ↔ lo ≤ k < hi.
Proof.
  unfold range. rewrite list_elem_of_fmap. split.
  - intros (j & -> & Hj). apply elem_of_seq in Hj. lia.
  - intros Hk. exists (Z.to_nat (k - lo)). split; [lia|].
    apply elem_of_seq. lia.
Qed.

(** A pass that returns keeps the length of the array and every label
    outside its segment. *)
Lemma shuffle_segment_frame `{Shuffler G} (numCP i : Z) (g g' : G) (y y' : list Z) :
  1 ≤ i ≤ numCP →
  shuffle_segment (len y) numCP i (g, y) = Ok (g', y') →
  length y' = length y
  ∧ ∀ t : nat, ¬ (i * (len y / (numCP + 1)) ≤ Z.of_nat t < (i + 1) * (len y / (numCP + 1))) →
      y' !! t = y !! t.
Proof.
  intros Hi Hrun.
  destruct (py_min (py_slice y (i * (len y / (numCP + 1))) ((i + 1) * (len y / (numCP + 1)))))
    as [mn|] eqn:Hmin; [|by unfold shuffle_segment in Hrun; cbn [fst snd] in Hrun;
                           rewrite Hmin in Hrun].
  destruct (py_max (py_slice y (i * (len y / (numCP + 1))) ((i + 1) * (len y / (numCP + 1)))))
    as [mx|] eqn:Hmax; [|by unfold shuffle_segment in Hrun; cbn [fst snd] in Hrun;
                           rewrite Hmin, Hmax in Hrun].
  destruct (shuffle_segment_cases numCP i g y mn mx Hi Hmin Hmax) as [Hok Hraise].
  destruct (base.decide (mn ≤ 0 ∧ -1 ≤ mx)) as [Hb | Hb];
    [|by rewrite (Hraise Hb) in Hrun].
  destruct (Hok Hb) as (y1 & Hy1 & Hlen & Hat).
  rewrite Hy1 in Hrun. injection Hrun as _ <-.
  split; [done|]. intros t Ht.
  destruct (y !! t) as [l|] eqn:Hl.
  - specialize (Hat t l Hl). by rewrite bool_decide_eq_false_2 in Hat.
  - apply lookup_ge_None. rewrite Hlen. by apply lookup_ge_None.
Qed.

(** Whenever the change-point block returns, the array has kept its
    length, and so has every label before the first change point and every
    label after the last segment: only positions from [T//(numCP+1)] up to
    [(numCP+1)*(T//(numCP+1))] can change. *)
Theorem change_points_frame `{Shuffler G} (numCP : Z) (g g' : G) (holdout_y y' : list Z) :
  change_points numCP g holdout_y = Ok (g', y') →
  length y' = length holdout_y
  ∧ ∀ t : nat,
      Z.of_nat t < len holdout_y / (numCP + 1)
      ∨ (numCP + 1) * (len holdout_y / (numCP + 1)) ≤ Z.of_nat t →
      y' !! t = holdout_y !! t.
Proof.
  unfold change_points. case_bool_decide; [|by intros [= <- <-]].
  intros Hrun.
  pose (P := λ st : G * list Z,
          length st.2 = length holdout_y
          ∧ ∀ t : nat,
              Z.of_nat t < len holdout_y / (numCP + 1)
              ∨ (numCP + 1) * (len holdout_y / (numCP + 1)) ≤ Z.of_nat t →
              st.2 !! t = holdout_y !! t).
  refine (for_each_invariant_elem P _ _ _ (g, holdout_y) (g', y') _ Hrun);
    [|by split].
  intros i [g0 y0] [g1 y1] Hi [Hlen Hout] Hpass. simpl in Hlen, Hout.
  apply elem_of_range in Hi.
  assert (len y0 = len holdout_y) as Hl by (unfold len; by rewrite Hlen).
  rewrite <- Hl in Hpass.
  destruct (shuffle_segment_frame numCP i g0 g1 y0 y1 ltac:(lia) Hpass) as [Hlen1 Hout1].
  rewrite Hl in Hout1.
  split; simpl; [congruence|]. intros t Ht. rewrite Hout1, Hout; [done..|].
  assert (0 ≤ len holdout_y / (numCP + 1)) by (apply Z.div_pos; unfold len; lia).
  nia.
Qed.

Lemma change_points_frame_witness :
  change_points 1 () [0; 1; 1; 0; 1; 0; 1] = Ok ((), [0; 1; 1; 1; 0; 1; 1])
  ∧ length [0; 1; 1; 1; 0; 1; 1] = length [0; 1; 1; 0; 1; 0; 1]
  ∧ ∀ t : nat,
      Z.of_nat t < len [0; 1; 1; 0; 1; 0; 1] / (1 + 1)
      ∨ (1 + 1) * (len [0; 1; 1; 0; 1; 0; 1] / (1 + 1)) ≤ Z.of_nat t →
      [0; 1; 1; 1; 0; 1; 1] !! t = [0; 1; 1; 0; 1; 0; 1] !! t.
Proof.
  assert (Hrun : change_points 1 () [0; 1; 1; 0; 1; 0; 1] = Ok ((), [0; 1; 1; 1; 0; 1; 1]))
    by reflexivity.
  split; [exact Hrun|].
  exact (change_points_frame 1 () () [0; 1; 1; 0; 1; 0; 1] [0; 1; 1; 1; 0; 1; 1] Hrun).
Defined.

(** With more change points than the array has room for ([numCP + 1] above
    its length) every segment is empty and the block stops at the first
    [min] with [ValueError], whatever the labels are. *)
Theorem change_points_too_many `{Shuffler G} (numCP : Z) (g : G) (holdout_y : list Z) :
  1 ≤ numCP → len holdout_y < numCP + 1 →
  change_points numCP g holdout_y = Raise ValueError.
Proof.
  intros Hn HT. unfold change_points.
  rewrite bool_decide_eq_true_2 by lia.
  rewrite range_cons by lia. cbn [for_each].
  assert (shuffle_segment (len holdout_y) numCP 1 (g, holdout_y) = Raise ValueError)
    as ->; [|done].
  unfold shuffle_segment. cbn [fst snd].
  rewrite Z.div_small by (unfold len in *; lia).
  rewrite !Z.mul_0_r. by destruct holdout_y.
Qed.

Lemma change_points_too_many_witness :
  (1 ≤ 3 ∧ len [0; 1; 0] < 3 + 1)
  ∧ change_points 3 () [0; 1; 0] = Raise ValueError.
Proof.
  assert (H1 : 1 ≤ 3) by lia.
  assert (H2 : len [0; 1; 0] < 3 + 1) by (vm_compute; congruence).
  split; [done | exact (change_points_too_many 3 () [0; 1; 0] H1 H2)].
Defined.

Lemma py_index_lookup {A} (l : list A) k v :
  py_index l k = Ok v →
  ∃ j : nat, l !! j = Some v
             ∧ Z.of_nat j = (if bool_decide (k < 0) then k + len l else k).
Proof.
  unfold py_index. case_bool_decide as Hj; [|done].
  destruct (l !! Z.to_nat _) as [x|] eqn:Hx; [|done]. intros [= <-].
  eexists. split; [exact Hx | lia].
Qed.

Lemma elem_of_arange a b v : v ∈ arange a b ↔ a ≤ v < b.
Proof. apply elem_of_range. Qed.

Lemma NoDup_arange a b : NoDup (arange a b).
Proof.
  unfold arange, range. apply NoDup_fmap_2; [|apply NoDup_seq].
  intros j k Hjk. lia.
Qed.

(** Within one pass the relabelling is one-to-one: two positions of the
    segment carry the same label after the pass exactly when they carried
    the same label before it, so the classes are renamed, not merged. *)
Theorem shuffle_segment_renames_classes `{Shuffler G}
    (numCP i : Z) (g g' : G) (holdout_y y' : list Z) (t1 t2 : nat) (l1 l2 : Z) :
  1 ≤ i ≤ numCP →
  shuffle_segment (len holdout_y) numCP i (g, holdout_y) = Ok (g', y') →
  i * (len holdout_y / (numCP + 1)) ≤ Z.of_nat t1 < (i + 1) * (len holdout_y / (numCP + 1)) →
  i * (len holdout_y / (numCP + 1)) ≤ Z.of_nat t2 < (i + 1) * (len holdout_y / (numCP + 1)) →
  holdout_y !! t1 = Some l1 → holdout_y !! t2 = Some l2 →
  (y' !! t1 = y' !! t2 ↔ l1 = l2).
Proof.
  intros Hi Hrun Ht1 Ht2 Hl1 Hl2.
  destruct (segment_inside (len holdout_y) numCP i ltac:(unfold len; lia) Hi)
    as (Hw & Ha & Hb).
  destruct (py_min (segment holdout_y numCP i)) as [mn|] eqn:Hmin;
    [|by unfold shuffle_segment in Hrun; cbn [fst snd] in Hrun;
         unfold segment in Hmin; rewrite Hmin in Hrun].
  destruct (py_max (segment holdout_y numCP i)) as [mx|] eqn:Hmax;
    [|by unfold shuffle_segment in Hrun; cbn [fst snd] in Hrun;
         unfold segment in Hmin, Hmax; rewrite Hmin, Hmax in Hrun].
  destruct (shuffle_segment_cases numCP i g holdout_y mn mx Hi Hmin Hmax) as [Hok Hraise].
  destruct (base.decide (mn ≤ 0 ∧ -1 ≤ mx)) as [Hbnd | Hbnd];
    [|by rewrite (Hraise Hbnd) in Hrun].
  destruct (Hok Hbnd) as (y1 & Hy1 & Hlen & Hat).
  rewrite Hy1 in Hrun. injection Hrun as _ <-.
  pose proof (Hat t1 l1 Hl1) as H1. rewrite bool_decide_eq_true_2 in H1 by done.
  pose proof (Hat t2 l2 Hl2) as H2. rewrite bool_decide_eq_true_2 in H2 by done.
  destruct H1 as (v1 & Hv1 & ->). destruct H2 as (v2 & Hv2 & ->).
  split; [|intros ->; congruence].
  intros [= ->].
  (* both labels lie between the minimum and the maximum of the segment *)
  destruct (py_min_spec _ _ Hmin) as [_ Hmn]. destruct (py_max_spec _ _ Hmax) as [Hmx_in Hmx].
  rewrite Forall_forall in Hmn, Hmx.
  assert (∀ (t : nat) l, i * (len holdout_y / (numCP + 1)) ≤ Z.of_nat t
                           < (i + 1) * (len holdout_y / (numCP + 1)) →
            holdout_y !! t = Some l → mn ≤ l ≤ mx) as Hrange.
  { intros t l Ht Hl.
    assert (l ∈ segment holdout_y numCP i) as Hin.
    { unfold segment.
      replace (i * (len holdout_y / (numCP + 1)))
        with (Z.of_nat (Z.to_nat (i * (len holdout_y / (numCP + 1))))) by lia.
      replace ((i + 1) * (len holdout_y / (numCP + 1)))
        with (Z.of_nat (Z.to_nat ((i + 1) * (len holdout_y / (numCP + 1))))) by lia.
      rewrite py_slice_nat by (unfold len in *; lia).
      apply elem_of_segment. exists t. split; [lia | done]. }
    split; [by apply Hmn | by apply Hmx]. }
  pose proof (Hrange t1 l1 Ht1 Hl1). pose proof (Hrange t2 l2 Ht2 Hl2).
  pose proof (length_permuted_labels g mn mx ltac:(lia)) as Hplen.
  assert (NoDup (permutation g (arange mn (mx + 1))).2) as Hnd.
  { rewrite (permutation_perm g _). apply NoDup_arange. }
  apply py_index_lookup in Hv1 as (j1 & Hj1 & Hp1).
  apply py_index_lookup in Hv2 as (j2 & Hj2 & Hp2).
  pose proof (NoDup_lookup _ _ _ _ Hnd Hj1 Hj2) as Hj.
  repeat case_bool_decide; lia.
Qed.

Lemma shuffle_segment_renames_classes_witness :
  shuffle_segment (len [0; 1; 1; 0; 1; 0]) 1 1 ((), [0; 1; 1; 0; 1; 0])
  = Ok ((), [0; 1; 1; 1; 0; 1])
  ∧ ([0; 1; 1; 1; 0; 1] !! 3%nat = [0; 1; 1; 1; 0; 1] !! 5%nat ↔ 0 = 0).
Proof.
  assert (Hrun : shuffle_segment (len [0; 1; 1; 0; 1; 0]) 1 1 ((), [0; 1; 1; 0; 1; 0])
                 = Ok ((), [0; 1; 1; 1; 0; 1])) by reflexivity.
  split; [exact Hrun|].
  apply (shuffle_segment_renames_classes 1 1 () () [0; 1; 1; 0; 1; 0] [0; 1; 1; 1; 0; 1]
           3 5 0 0); [lia | exact Hrun | vm_compute; intuition congruence
                     | vm_compute; intuition congruence | reflexivity | reflexivity].
Defined.

(** The segment of pass [i] only depends on the labels from its first
    position on. *)
Lemma segment_ext (y1 y2 : list Z) (numCP i : Z) :
  length y1 = length y2 → 1 ≤ i ≤ numCP →
  (∀ t : nat, i * (len y2 / (numCP + 1)) ≤ Z.of_nat t → y1 !! t = y2 !! t) →
  segment y1 numCP i = segment y2 numCP i.
Proof.
  intros Hlen Hi Hagree. unfold segment.
  assert (len y1 = len y2) as -> by (unfold len; by rewrite Hlen).
  destruct (segment_inside (len y2) numCP i ltac:(unfold len; lia) Hi) as (Hw & Ha & Hb).
  revert Hagree Hw Ha Hb. generalize (len y2 / (numCP + 1)). intros w Hagree Hw Ha Hb.
  assert (0 ≤ (i + 1) * w) as Hb0 by nia.
  replace (i * w) with (Z.of_nat (Z.to_nat (i * w))) by lia.
  replace ((i + 1) * w) with (Z.of_nat (Z.to_nat ((i + 1) * w))) by lia.
  unfold len in Hb.
  rewrite !py_slice_nat by lia.
  apply list_eq. intros j.
  destruct (base.decide (j < Z.to_nat ((i + 1) * w) - Z.to_nat (i * w))%nat).
  - rewrite !lookup_take_lt, !lookup_drop by done. apply Hagree. lia.
  - by rewrite !lookup_take_ge by lia.
Qed.

Lemma py_slice_subseteq {A} (l : list A) a b : py_slice l a b ⊆ l.
Proof.
  unfold py_slice. etrans; [apply subseteq_take | apply subseteq_drop].
Qed.

(** One pass on binary labels whose segment holds a 0. *)
Lemma shuffle_segment_binary `{Shuffler G} (numCP i : Z) (g : G) (y : list Z) :
  1 ≤ i ≤ numCP →
  Forall (λ l, l = 0 ∨ l = 1) y →
  0 ∈ segment y numCP i →
  ∃ g' y', shuffle_segment (len y) numCP i (g, y) = Ok (g', y')
           ∧ length y' = length y
           ∧ Forall (λ l, l = 0 ∨ l = 1) y'
           ∧ ∀ t : nat, (i + 1) * (len y / (numCP + 1)) ≤ Z.of_nat t → y' !! t = y !! t.
Proof.
  intros Hi Hbin H0. rewrite Forall_forall in Hbin.
  destruct (py_min (segment y numCP i)) as [mn|] eqn:Hmin;
    [|by destruct (segment y numCP i); [apply elem_of_nil in H0|]].
  destruct (py_max (segment y numCP i)) as [mx|] eqn:Hmax;
    [|by destruct (segment y numCP i); [apply elem_of_nil in H0|]].
  destruct (py_min_spec _ _ Hmin) as [Hmn_in Hmn].
  destruct (py_max_spec _ _ Hmax) as [Hmx_in Hmx].
  rewrite Forall_forall in Hmn, Hmx.
  pose proof (Hmn 0 H0).
  pose proof (Hbin mn (py_slice_subseteq _ _ _ _ Hmn_in)).
  pose proof (Hbin mx (py_slice_subseteq _ _ _ _ Hmx_in)).
  destruct (shuffle_segment_cases numCP i g y mn mx Hi Hmin Hmax) as [Hok _].
  destruct (Hok ltac:(lia)) as (y' & Hrun & Hlen & Hat).
  eexists _, y'. split; [exact Hrun|]. split; [done|]. split.
  - apply Forall_lookup. intros t v Hv.
    destruct (lookup_lt_is_Some_2 y t) as [l Hl].
    { rewrite <- Hlen. by eapply lookup_lt_Some. }
    specialize (Hat t l Hl). case_bool_decide.
    + destruct Hat as (v' & Hv' & Ht). assert (v' = v) as -> by congruence.
      apply py_index_lookup in Hv' as (j & Hj & _).
      apply list_elem_of_lookup_2 in Hj.
      rewrite (permutation_perm g _) in Hj. apply elem_of_arange in Hj. lia.
    + apply Hbin. apply (list_elem_of_lookup_2 _ t). congruence.
  - intros t Ht.
    destruct (segment_inside (len y) numCP i ltac:(unfold len; lia) Hi) as (Hw & _).
    destruct (y !! t) as [l|] eqn:Hl.
    + specialize (Hat t l Hl). by rewrite bool_decide_eq_false_2 in Hat by lia.
    + apply lookup_ge_None. rewrite Hlen. by apply lookup_ge_None.
Qed.

Lemma change_points_passes_binary `{Shuffler G} (numCP : Z) (y : list Z) :
  (∀ i, 1 ≤ i ≤ numCP → 0 ∈ segment y numCP i) →
  ∀ (n : nat) (k : Z) (g : G) (yc : list Z),
    1 ≤ k → k + Z.of_nat n = numCP + 1 →
    length yc = length y →
    Forall (λ l, l = 0 ∨ l = 1) yc →
    (∀ t : nat, k * (len y / (numCP + 1)) ≤ Z.of_nat t → yc !! t = y !! t) →
    ∃ g' y', for_each (shuffle_segment (len y) numCP) (range k (numCP + 1)) (g, yc)
             = Ok (g', y')
             ∧ length y' = length y
             ∧ Forall (λ l, l = 0 ∨ l = 1) y'.
Proof.
  intros Hseg. induction n as [|n IH]; intros k g yc Hk Hkn Hlen Hbin Hagree.
  { rewrite range_nil by lia. by eexists _, _. }
  rewrite range_cons by lia. cbn [for_each].
  assert (len yc = len y) as Hl by (unfold len; by rewrite Hlen).
  destruct (shuffle_segment_binary numCP k g yc ltac:(lia) Hbin)
    as (g1 & y1 & Hrun & Hlen1 & Hbin1 & Hout1).
  { rewrite (segment_ext yc y numCP k Hlen ltac:(lia) Hagree). apply Hseg. lia. }
  rewrite Hl in Hrun, Hout1. rewrite Hrun. simpl.
  apply (IH (k + 1) g1 y1); [lia | lia | congruence | done |].
  intros t Ht. rewrite Hout1 by done. apply Hagree.
  assert (0 ≤ len y / (numCP + 1)) by (apply Z.div_pos; unfold len; lia).
  nia.
Qed.

(** On binary labels the change-point block returns as soon as every
    segment holds a label 0, and the labels it returns are binary again. *)
Theorem change_points_binary `{Shuffler G} (numCP : Z) (g : G) (holdout_y : list Z) :
  Forall (λ l, l = 0 ∨ l = 1) holdout_y →
  (∀ i, 1 ≤ i ≤ numCP → 0 ∈ segment holdout_y numCP i) →
  ∃ g' y', change_points numCP g holdout_y = Ok (g', y')
           ∧ length y' = length holdout_y
           ∧ Forall (λ l, l = 0 ∨ l = 1) y'.
Proof.
  intros Hbin Hseg. unfold change_points.
  case_bool_decide; [|by eexists _, _].
  destruct (base.decide (numCP < 0)).
  { rewrite range_nil by lia. by eexists _, _. }
  apply (change_points_passes_binary numCP holdout_y Hseg (Z.to_nat numCP) 1);
    [lia | lia | done | done | done].
Qed.

Lemma change_points_binary_witness :
  Forall (λ l, l = 0 ∨ l = 1) [0; 1; 1; 0; 1; 0; 1]
  ∧ ∃ g' y', change_points 2 () [0; 1; 1; 0; 1; 0; 1] = Ok (g', y')
             ∧ length y' = length [0; 1; 1; 0; 1; 0; 1]
             ∧ Forall (λ l, l = 0 ∨ l = 1) y'.
Proof.
  assert (Hbin : Forall (λ l, l = 0 ∨ l = 1) [0; 1; 1; 0; 1; 0; 1])
    by (repeat constructor; lia).
  split; [exact Hbin|].
  apply (change_points_binary 2 () [0; 1; 1; 0; 1; 0; 1] Hbin).
  intros i Hi. assert (i = 1 ∨ i = 2) as [-> | ->] by lia;
    apply (list_elem_of_lookup_2 _ 1%nat); reflexivity.
Defined.

(** ** More on cell 3 *)

(** On odd labels a float holds exactly (below 2^53 in absolute value, the
    labels -1 and 1 among them) the remap is undone by [l ↦ 2l - 1], so
    distinct such labels stay distinct. *)
Theorem remap_keeps_odd_labels_apart (y1 y2 : Z) :
  - 2 ^ 53 < y1 < 2 ^ 53 → - 2 ^ 53 < y2 < 2 ^ 53 →
  Z.odd y1 = true → Z.odd y2 = true →
  2 * remap y1 - 1 = y1 ∧ (remap y1 = remap y2 → y1 = y2).
Proof.
  intros _ _ H1 H2. unfold remap.
  assert (∀ y, Z.odd y = true → 2 * Z.quot (y + 1) 2 - 1 = y) as Hinv.
  { intros y Hy. rewrite Z.odd_spec in Hy. destruct Hy as [k ->].
    replace (2 * k + 1 + 1) with ((k + 1) * 2) by lia.
    rewrite Z.quot_mul by lia. lia. }
  split; [by apply Hinv|]. intros Heq.
  rewrite <- (Hinv y1 H1), <- (Hinv y2 H2). by rewrite Heq.
Qed.

Lemma remap_keeps_odd_labels_apart_witness :
  2 * remap (-1) - 1 = -1 ∧ (remap (-1) = remap 1 → -1 = 1).
Proof.
  exact (remap_keeps_odd_labels_apart (-1) 1 ltac:(lia) ltac:(lia) eq_refl eq_refl).
Defined.

(** A positive even label below 2^53 is merged by the remap with the odd
    label just below it: on label spaces other than odd ones classes are
    lost. *)
Theorem remap_merges_even_labels (y : Z) :
  0 < y < 2 ^ 53 → Z.even y = true → remap y = remap (y - 1).
Proof.
  intros Hpos Hy. unfold remap. rewrite Z.even_spec in Hy. destruct Hy as [k ->].
  replace (2 * k - 1 + 1) with (k * 2) by lia.
  rewrite Z.quot_mul by lia.
  rewrite Z.quot_div_nonneg by lia.
  symmetry. apply Z.div_unique with (r := 1); lia.
Qed.

Lemma remap_merges_even_labels_witness :
  (0 < 2 < 2 ^ 53 ∧ Z.even 2 = true) ∧ remap 2 = remap (2 - 1).
Proof.
  split; [split; [lia | reflexivity]|].
  exact (remap_merges_even_labels 2 ltac:(lia) eq_refl).
Defined.

(** ** Cell 8 *)

Lemma py_slice_prefix_length {A} (l : list A) (t : Z) :
  0 ≤ t ≤ len l → len (py_slice l 0 t) = t.
Proof.
  intros Ht. unfold py_slice, slice_bound, len in *.
  rewrite length_take, length_drop.
  repeat case_bool_decide; lia.
Qed.

(** The loop invariant of cell 8: after [n] passes there are [n]
    predictions. *)
Lemma online_loop_upto `{SafePredict X Obj} (Xs : list X) (y : list Z) (sp0 : Obj) (n : nat) :
  len Xs ≤ len y → tl + Z.of_nat n ≤ len Xs →
  ∃ sp predictions,
    for_each (online_step Xs y) (range tl (tl + Z.of_nat n)) (sp0, []) = Ok (sp, predictions)
    ∧ length predictions = n.
Proof.
  intros Hy. induction n as [|n IH]; intros Hn.
  { rewrite range_nil by lia. by eexists _, _. }
  destruct (IH ltac:(lia)) as (sp & predictions & Hrun & Hlen).
  rewrite range_snoc, (for_each_snoc _ _ _ _ _ Hrun).
  assert (0 ≤ tl) by (by vm_compute).
  unfold online_step. cbn [fst snd].
  destruct (py_index_ok Xs (tl + Z.of_nat n)) as [x ->]; [lia|].
  destruct (py_index_ok y (tl + Z.of_nat n)) as [l ->]; [lia|].
  simpl. eexists _, _. split; [reflexivity|].
  rewrite length_app. simpl. lia.
Qed.

(** Cells 8 and 9 together: when [y] has a label for every row of [X], the
    online loop returns [horizon - tl] predictions (none when the data ends
    before row [tl]), and the error-rate loop run on them returns one rate
    per prediction. *)
Lemma online_loop_feeds_error_rate_loop `{SafePredict X Obj}
    (sp0 : Obj) (Xs : list X) (y : list Z) :
  len Xs ≤ len y →
  ∃ sp predictions s,
    online_loop sp0 Xs y = Ok (sp, predictions)
    ∧ len predictions = Z.max 0 (len Xs - tl)
    ∧ error_rate_loop predictions y tl = Ok s
    ∧ len (error_rates s) = Z.max 0 (len Xs - tl).
Proof.
  intros Hy. unfold online_loop.
  assert (0 ≤ tl) as Htl by (by vm_compute).
  destruct (base.decide (len Xs ≤ tl)) as [Hshort | Hlong].
  { rewrite range_nil by lia. eexists _, [], _. split; [reflexivity|].
    split; [unfold len in *; simpl; lia|]. split; [reflexivity|].
    unfold len in *; simpl; lia. }
  destruct (online_loop_upto Xs y (sp_fit (py_slice Xs 0 tl) (py_slice y 0 tl) sp0)
              (Z.to_nat (len Xs - tl)) Hy ltac:(lia))
    as (sp & predictions & Hrun & Hlen).
  replace (tl + Z.of_nat (Z.to_nat (len Xs - tl))) with (len Xs) in Hrun by lia.
  exists sp, predictions. eexists. split; [exact Hrun|].
  split; [unfold len in *; lia|]. split.
  - unfold error_rate_loop, len.
    apply error_rate_upto_spec; [done | unfold len in *; lia | done].
  - cbn [error_rates]. unfold len in *. rewrite length_fmap, length_seq. lia.
Qed.

Lemma fits_before_app {X} (l1 l2 : list (call X)) : ∀ cur,
  fits_before cur (l1 ++ l2) = fits_before cur l1 ++ fits_before (last_fit cur l1) l2.
Proof.
  induction l1 as [|[Xb yb|Xb yb|x l] l1 IH]; intros cur; simpl; [done|..].
  - apply IH.
  - apply IH.
  - f_equal. apply IH.
Qed.

Lemma last_fit_app {X} (l1 l2 : list (call X)) : ∀ cur,
  last_fit cur (l1 ++ l2) = last_fit (last_fit cur l1) l2.
Proof.
  induction l1 as [|[Xb yb|Xb yb|x l] l1 IH]; intros cur; simpl; [done|..]; apply IH.
Qed.

Lemma queries_app {X} (l1 l2 : list (call X)) :
  queries (l1 ++ l2) = queries l1 ++ queries l2.
Proof.
  induction l1 as [|[Xb yb|Xb yb|x l] l1 IH]; simpl; [done|..]; by rewrite ?IH.
Qed.

Lemma py_slice_prefix {A} (l : list A) (t : Z) :
  0 ≤ t ≤ len l → py_slice l 0 t = take (Z.to_nat t) l.
Proof.
  intros Ht. unfold py_slice, slice_bound, len in *.
  rewrite (bool_decide_eq_false_2 (0 < 0)) by lia.
  rewrite (bool_decide_eq_false_2 (t < 0)) by lia.
  replace (Z.to_nat (0 `min` Z.of_nat (length l))) with 0%nat by lia.
  replace (Z.to_nat (t `min` Z.of_nat (length l)) - 0)%nat with (Z.to_nat t) by lia.
  by rewrite drop_0.
Qed.

Lemma py_index_inv_nat {A} (l : list A) (k : Z) x :
  0 ≤ k → py_index l k = Ok x → l !! Z.to_nat k = Some x.
Proof.
  intros Hk. unfold py_index.
  rewrite (bool_decide_eq_false_2 (k < 0)) by lia.
  rewrite bool_decide_eq_true_2 by lia.
  by destruct (l !! Z.to_nat k); intros [= <-].
Qed.

(** The calls the loop has made after [n] passes, read off the recording
    stand-in: the query for row [t] passes [X[t]] and [y[t]] and follows a
    fit on the first [tau * (t / tau)] rows and their labels. *)
Lemma online_loop_schedule_upto {X} (Xs : list X) (y : list Z) (n : nat) :
  len Xs ≤ len y → tl + Z.of_nat n ≤ len Xs →
  ∃ (log : list (call X)) predictions,
    for_each (online_step Xs y) (range tl (tl + Z.of_nat n))
      ([Fit (py_slice Xs 0 tl) (py_slice y 0 tl)], []) = Ok (log, predictions)
    ∧ fits_before ([], []) log
      = (λ t, first_rows Xs y (tau * (t / tau))) <$> range tl (tl + Z.of_nat n)
    ∧ queries log = take n (zip (drop (Z.to_nat tl) Xs) (drop (Z.to_nat tl) y))
    ∧ (n ≠ 0%nat →
       last_fit ([], []) log = first_rows Xs y (tau * ((tl + Z.of_nat n - 1) / tau))).
Proof.
  intros Hy. induction n as [|n IH]; intros Hn.
  { rewrite range_nil by lia. by eexists _, _. }
  destruct (IH ltac:(lia)) as (log & predictions & Hrun & Hfits & Hq & Hlast).
  rewrite range_snoc, (for_each_snoc _ _ _ _ _ Hrun), fmap_app.
  assert (tl = 100 ∧ tau = 100) as [Etl Etau] by done.
  unfold online_step. cbn [fst snd].
  destruct (py_index_ok Xs (tl + Z.of_nat n)) as [x Hx]; [lia|].
  destruct (py_index_ok y (tl + Z.of_nat n)) as [l Hl]; [lia|].
  rewrite Hx, Hl.
  apply py_index_inv_nat in Hx; [|lia]. apply py_index_inv_nat in Hl; [|lia].
  assert (zip (drop (Z.to_nat tl) Xs) (drop (Z.to_nat tl) y) !! n = Some (x, l)) as Hz.
  { rewrite lookup_zip_with, !lookup_drop.
    replace (Z.to_nat tl + n)%nat with (Z.to_nat (tl + Z.of_nat n)) by lia.
    by rewrite Hx, Hl. }
  cbn [mbind result_bind sp_predict sp_estimator_fit recorder fst snd].
  eexists _, _. split; [reflexivity|].
  rewrite (take_S_r _ _ _ Hz).
  case_bool_decide as Hmod.
  - rewrite !fits_before_app, !last_fit_app, !queries_app, Hfits, Hq.
    cbn [fits_before last_fit queries fmap list_fmap].
    rewrite !app_nil_r, !py_slice_prefix by lia.
    assert (tau * ((tl + Z.of_nat n) / tau) = tl + Z.of_nat n) as Ediv
      by (rewrite Etl, Etau in *; Z.div_mod_to_equations; lia).
    split; [by rewrite Ediv|]. split; [done|]. intros _.
    replace (tl + Z.of_nat (S n) - 1) with (tl + Z.of_nat n) by lia.
    by rewrite Ediv.
  - rewrite !fits_before_app, !last_fit_app, !queries_app, Hfits, Hq.
    cbn [fits_before last_fit queries fmap list_fmap].
    assert (n ≠ 0%nat) as Hn0.
    { intros ->. apply Hmod. by rewrite Etl, Etau. }
    rewrite (Hlast Hn0).
    assert (tau * ((tl + Z.of_nat n - 1) / tau) = tau * ((tl + Z.of_nat n) / tau)) as Ediv
      by (rewrite Etl, Etau in *; Z.div_mod_to_equations; lia).
    split; [by rewrite Ediv|]. split; [done|]. intros _.
    replace (tl + Z.of_nat (S n) - 1) with (tl + Z.of_nat n) by lia.
    by rewrite Ediv.
Qed.

(** The retraining schedule of cell 8, read off a stand-in for [sp] that
    records its calls: the query for row [t] passes [X[t]] and [y[t]], and
    is answered after a fit on exactly the first [tau * (t // tau)] rows
    and their labels, [X[:k]] and [y[:k]] with [k = tau * (t // tau)]; [k]
    falls short of [t] by [t % tau], fewer than [tau] rows. *)
Theorem online_loop_training_schedule {X} (Xs : list X) (y : list Z) :
  len Xs ≤ len y →
  ∃ (log : list (call X)) predictions,
    online_loop [] Xs y = Ok (log, predictions)
    ∧ fits_before ([], []) log
      = (λ t, first_rows Xs y (tau * (t / tau))) <$> range tl (len Xs)
    ∧ queries log = zip (drop (Z.to_nat tl) Xs) (drop (Z.to_nat tl) y)
    ∧ length (queries log) = Z.to_nat (len Xs - tl)
    ∧ Forall (λ t, 0 ≤ t - tau * (t / tau) < tau ∧ t - tau * (t / tau) = t `mod` tau)
             (range tl (len Xs)).
Proof.
  intros Hy. unfold online_loop.
  cbn [sp_fit recorder app].
  assert (tl = 100 ∧ tau = 100) as [Etl Etau] by done.
  assert (∃ (log : list (call X)) predictions,
            for_each (online_step Xs y) (range tl (len Xs))
              ([Fit (py_slice Xs 0 tl) (py_slice y 0 tl)], []) = Ok (log, predictions)
            ∧ fits_before ([], []) log
              = (λ t, first_rows Xs y (tau * (t / tau))) <$> range tl (len Xs)
            ∧ queries log
              = take (Z.to_nat (len Xs - tl))
                     (zip (drop (Z.to_nat tl) Xs) (drop (Z.to_nat tl) y)))
    as (log & predictions & Hrun & Hfits & Hq).
  { destruct (base.decide (len Xs ≤ tl)) as [Hshort | Hlong].
    { rewrite range_nil by lia. eexists _, _. split; [reflexivity|].
      split; [done|]. by replace (Z.to_nat (len Xs - tl)) with 0%nat by lia. }
    destruct (online_loop_schedule_upto Xs y (Z.to_nat (len Xs - tl)) Hy ltac:(lia))
      as (log & predictions & Hrun & Hfits & Hq & _).
    replace (tl + Z.of_nat (Z.to_nat (len Xs - tl))) with (len Xs) in Hrun, Hfits by lia.
    by exists log, predictions. }
  assert (length (zip (drop (Z.to_nat tl) Xs) (drop (Z.to_nat tl) y))
          = Z.to_nat (len Xs - tl)) as Hzl.
  { unfold len in *. rewrite length_zip_with, !length_drop. lia. }
  rewrite take_ge in Hq by lia.
  exists log, predictions. split; [exact Hrun|]. split; [exact Hfits|].
  split; [exact Hq|]. split; [by rewrite Hq|].
  apply Forall_forall. intros t Ht. apply elem_of_range in Ht.
    rewrite Etl, Etau in *. Z.div_mod_to_equations. lia.
Qed.

Lemma online_loop_training_schedule_witness :
  len (replicate 203 (0 : Z)) ≤ len (replicate 203 1)
  ∧ ∃ (log : list (call Z)) predictions,
      online_loop [] (replicate 203 0) (replicate 203 1) = Ok (log, predictions)
      ∧ fits_before ([], []) log
        = (λ t, first_rows (replicate 203 0) (replicate 203 1) (tau * (t / tau)))
            <$> range tl (len (replicate 203 (0 : Z))).
Proof.
  assert (H : len (replicate 203 (0 : Z)) ≤ len (replicate 203 1))
    by (vm_compute; congruence).
  split; [exact H|].
  destruct (online_loop_training_schedule (replicate 203 0) (replicate 203 1) H)
    as (log & predictions & Hrun & Hfits & _).
  exists log, predictions. split; [exact Hrun | exact Hfits].
Defined.

(** ** Cells 10 and 11: the three plotted series *)

Lemma base_loop_upto `{Classifier X Mdl} (Xs : list X) (y : list Z) (m0 : Mdl) (n : nat) :
  tl + Z.of_nat n ≤ len Xs →
  ∃ m base_predictions,
    for_each (base_step Xs y) (range tl (tl + Z.of_nat n)) (m0, []) = Ok (m, base_predictions)
    ∧ length base_predictions = n.
Proof.
  induction n as [|n IH]; intros Hn.
  { rewrite range_nil by lia. by eexists _, _. }
  destruct (IH ltac:(lia)) as (m & bp & Hrun & Hlen).
  rewrite range_snoc, (for_each_snoc _ _ _ _ _ Hrun).
  assert (0 ≤ tl) by (by vm_compute).
  unfold base_step. cbn [fst snd].
  destruct (py_index_ok Xs (tl + Z.of_nat n)) as [x ->]; [lia|].
  simpl. eexists _, _. split; [reflexivity|].
  rewrite length_app. simpl. lia.
Qed.

(** The plain classifier's loop never reads a label by index: it returns
    [horizon - tl] predictions whatever the length of [y]. *)
Lemma base_loop_length `{Classifier X Mdl} (m0 : Mdl) (Xs : list X) (y : list Z) :
  ∃ m base_predictions,
    base_loop m0 Xs y = Ok (m, base_predictions)
    ∧ len base_predictions = Z.max 0 (len Xs - tl).
Proof.
  unfold base_loop.
  destruct (base.decide (len Xs ≤ tl)) as [Hshort | Hlong].
  { rewrite range_nil by lia. eexists _, []. split; [reflexivity|].
    unfold len in *; simpl; lia. }
  destruct (base_loop_upto Xs y (model_fit (py_slice Xs 0 tl) (py_slice y 0 tl) m0)
              (Z.to_nat (len Xs - tl)) ltac:(lia))
    as (m & bp & Hrun & Hlen).
  replace (tl + Z.of_nat (Z.to_nat (len Xs - tl))) with (len Xs) in Hrun by lia.
  exists m, bp. split; [exact Hrun | unfold len in *; lia].
Qed.

Lemma threshold_loop_replicate (epsilon : Q) (n : nat) :
  threshold_loop epsilon (Z.of_nat n) = replicate n epsilon.
Proof.
  unfold threshold_loop. induction n as [|n IH]; [done|].
  pose proof (range_snoc 0 n) as Hr. rewrite !Z.add_0_l in Hr.
  rewrite Hr, foldl_app, IH. simpl.
  by rewrite <- replicate_S_end.
Qed.

(** Cells 8 to 11 together: when [y] has a label for every row of [X], the
    controller's rates, the plain classifier's rates and the threshold line
    all have [total_preds = horizon - tl] points (none when the data ends
    before row [tl]), and the threshold line is [epsilon] throughout. *)
Theorem plotted_series_have_equal_length `{SafePredict X Obj} `{Classifier X Mdl}
    (sp0 : Obj) (m0 : Mdl) (Xs : list X) (y : list Z) (epsilon : Q) :
  len Xs ≤ len y →
  ∃ sp predictions s m base_predictions sb,
    online_loop sp0 Xs y = Ok (sp, predictions)
    ∧ error_rate_loop predictions y tl = Ok s
    ∧ base_loop m0 Xs y = Ok (m, base_predictions)
    ∧ base_error_rate_loop base_predictions y tl = Ok sb
    ∧ len (error_rates s) = len predictions
    ∧ len (base_error_rates sb) = len predictions
    ∧ len (threshold_loop epsilon (len predictions)) = len predictions
    ∧ Forall (λ r, r = epsilon) (threshold_loop epsilon (len predictions))
    ∧ len predictions = Z.max 0 (len Xs - tl).
Proof.
  intros Hy.
  destruct (online_loop_feeds_error_rate_loop sp0 Xs y Hy)
    as (sp & predictions & s & Hrun & Hlen & Hs & Hrates).
  destruct (base_loop_length m0 Xs y) as (m & bp & Hbrun & Hblen).
  assert (0 ≤ tl) as Htl by (by vm_compute).
  assert (∃ sb, base_error_rate_loop bp y tl = Ok sb
                ∧ len (base_error_rates sb) = len bp) as (sb & Hsb & Hbrates).
  { destruct (base.decide (len Xs ≤ tl)) as [Hshort | Hlong].
    - assert (bp = []) as -> by (apply nil_length_inv; unfold len in *; lia).
      by eexists.
    - eexists. split.
      + unfold base_error_rate_loop, len.
        apply base_error_rate_upto_spec; [done | unfold len in *; lia | done].
      + cbn [base_error_rates]. unfold len. by rewrite length_fmap, length_seq. }
  exists sp, predictions, s, m, bp, sb.
  split; [exact Hrun|]. split; [exact Hs|]. split; [exact Hbrun|].
  split; [exact Hsb|]. split; [lia|]. split; [lia|].
  replace (threshold_loop epsilon (len predictions))
    with (replicate (length predictions) epsilon)
    by (symmetry; apply threshold_loop_replicate).
  split; [unfold len; by rewrite length_replicate|].
  split; [|done]. apply Forall_forall. intros r Hr.
  by apply elem_of_replicate in Hr as [-> _].
Qed.

Lemma plotted_series_have_equal_length_witness :
  len (replicate 103 (0 : Z)) ≤ len (replicate 103 1)
  ∧ ∃ (sp : list (call Z)) predictions s (m : unit) base_predictions sb,
      online_loop [] (replicate 103 0) (replicate 103 1) = Ok (sp, predictions)
      ∧ error_rate_loop predictions (replicate 103 1) tl = Ok s
      ∧ base_loop () (replicate 103 0) (replicate 103 1) = Ok (m, base_predictions)
      ∧ base_error_rate_loop base_predictions (replicate 103 1) tl = Ok sb
      ∧ len (error_rates s) = len predictions
      ∧ len (base_error_rates sb) = len predictions.
Proof.
  assert (H : len (replicate 103 (0 : Z)) ≤ len (replicate 103 1))
    by (vm_compute; congruence).
  split; [exact H|].
  destruct (plotted_series_have_equal_length [] () (replicate 103 0) (replicate 103 1)
              (5 # 100) H)
    as (sp & predictions & s & m & bp & sb & H1 & H2 & H3 & H4 & H5 & H6 & _).
  exists sp, predictions, s, m, bp, sb.
  split; [exact H1|]. split; [exact H2|]. split; [exact H3|].
  split; [exact H4|]. split; [exact H5 | exact H6].
Defined.

(** ** The controller *)

Import Controller.

Example run_ex :
  ∃ c, construct (5 # 100) 42 = Ok c
       ∧ run (seed c [((), 1)]) [((), 1); ((), 1); ((), 0); ((), 0); ((), 0)]
         = [Ok (Predict 1); Ok (Predict 1); Ok (Predict 1); Ok Abstain; Ok (Predict 1)].
Proof. eexists. split; reflexivity. Qed.

Lemma construct_cases {M G : Type} (eps : Q) (g : G) :
  ((0 < eps ∧ eps < 1)%Q ∧ construct (M := M) eps g = Ok (Controller eps g Unseeded))
  ∨ (¬ (0 < eps ∧ eps < 1)%Q ∧ construct (M := M) eps g = Raise ConfigurationError).
Proof.
  unfold construct.
  destruct (Qlt_le_dec 0 eps) as [H0 | H0]; [destruct (Qlt_le_dec eps 1) as [H1 | H1]|].
  - by left.
  - right. split; [|done]. intros [_ ?]. by apply (Qle_not_lt _ _ H1).
  - right. split; [|done]. intros [? _]. by apply (Qle_not_lt _ _ H0).
Qed.

(** C5: construction fails with [ConfigurationError] exactly when the target
    error rate is not in the open interval (0, 1), and fails in no other
    way; for every ε in (0, 1), 0.05 among them, it succeeds. *)
Theorem construct_checks_target_error {M G : Type} (eps : Q) (g : G) :
  (construct (M := M) eps g = Raise ConfigurationError ↔ ¬ (0 < eps ∧ eps < 1)%Q)
  ∧ ((∃ c, construct (M := M) eps g = Ok c) ↔ (0 < eps ∧ eps < 1)%Q)
  ∧ (∀ e, construct (M := M) eps g = Raise e → e = ConfigurationError)
  ∧ (∃ c, construct (M := M) (5 # 100) g = Ok c).
Proof.
  split; [|split; [|split]].
  - destruct (construct_cases (M := M) eps g) as [[Hin ->] | [Hout ->]];
      (split; [|intros ?]); done.
  - destruct (construct_cases (M := M) eps g) as [[Hin ->] | [Hout ->]];
      (split; [intros [c Hc]|intros ?]); try done.
    by eexists.
  - destruct (construct_cases (M := M) eps g) as [[Hin ->] | [Hout ->]]; [done|].
    by intros e [= <-].
  - by eexists.
Qed.

(** C4: [decide] on a controller that was not seeded fails with
    [NotSeededError]; after [seed] on a non-empty batch the round counter
    starts at 0 and the first [decide] returns a decision (the estimator's
    prediction or the abstention marker) whenever the base estimator answers
    the query. *)
Theorem decide_requires_seed `{BaseEstimator X M} `{RandomSource G} `{AdaptiveRule}
    (c : controller M G) (batch : list (X * Z)) (x : X) (y_true yhat : Z) :
  state c = Unseeded →
  (0 < length batch)%nat →
  est_predict (est_fit batch) x = Some yhat →
  decide c x y_true = Raise NotSeededError
  ∧ (∃ m s, state (seed c batch) = Seeded m s ∧ rounds s = 0)
  ∧ ∃ d c', decide (seed c batch) x y_true = Ok (d, c')
            ∧ (d = Predict yhat ∨ d = Abstain)
            ∧ ∃ m s, state c' = Seeded m s ∧ rounds s = 1.
Proof.
  intros Hc _ Hp. split; [|split].
  - unfold decide. by rewrite Hc.
  - by eexists _, _.
  - unfold decide. cbn [seed state]. rewrite Hp.
    eexists _, _. split; [reflexivity|]. split.
    + destruct (Qlt_le_dec _ _); [by left | by right].
    + by eexists _, _.
Qed.

Lemma decide_requires_seed_witness :
  ∃ c : controller unit Z,
    construct (5 # 100) 42 = Ok c
    ∧ decide c () 1 = Raise NotSeededError
    ∧ ∃ d c', decide (seed c [((), 1); ((), 0)]) () 1 = Ok (d, c').
Proof.
  exists (Controller (5 # 100) 42 Unseeded). split; [reflexivity|].
  destruct (decide_requires_seed (Controller (5 # 100) 42 Unseeded)
              [((), 1); ((), 0)] () 1 1 eq_refl ltac:(simpl; lia) eq_refl)
    as (Hbefore & _ & d & c' & Hafter & _).
  split; [exact Hbefore | by exists d, c'].
Defined.

(** A failing estimator fails the first [decide] too, with
    [EstimatorError], not [NotSeededError]. *)
Remark decide_estimator_failure :
  @decide _ _ broken _ lcg halving
    (@seed _ _ broken halving _ (Controller (5 # 100) 42 Unseeded) [((), 1)]) () 1
  = Raise EstimatorError.
Proof. reflexivity. Qed.






